(** * Garage Parking Assistant: the distance-to-light mapping and the
      sleep/calibration state machine of the Arduino sketch, embedded in Rocq.

    Sources embedded here:
    - [garage_parking_assistant.ino] (version 1.10, the current sketch),
    - the archived 0.8 sketch (NewPing based) and
    - the archived 0.6 sketch (QuickMedian based).

    The three sketches share [sleepmode_start], the calibration part of
    [setup] and the control part of [loop]; they differ in their constants
    and in two expressions of the display code, which are kept apart below
    ([display], [display_v0_8], [display_v0_6]). *)

From Stdlib Require Import ZArith Lia List Bool.
From stdpp Require Import base list.

Local Open Scope Z_scope.

(** ** The 16-bit [int] of the AVR targets

    The sketches are written for AVR boards (they use [EEMEM] and
    [eeprom_read_word]), where [int] has 16 bits.  Values are kept as [Z];
    every operation wraps its mathematical result into the [int] range. *)
Module Int16.

Definition min_int : Z := -32768.
Definition max_int : Z := 32767.

Definition in_range (z : Z) : Prop := min_int <= z <= max_int.

Definition wrap (z : Z) : Z := (z + 32768) mod 65536 - 32768.

Definition add (a b : Z) : Z := wrap (a + b).
Definition sub (a b : Z) : Z := wrap (a - b).
Definition mul (a b : Z) : Z := wrap (a * b).
(** C division truncates towards zero. *)
Definition div (a b : Z) : Z := wrap (Z.quot a b).
Definition neg (a : Z) : Z := wrap (- a).

(** Arduino's [abs] is the macro [((x)>0?(x):-(x))]. *)
Definition abs (x : Z) : Z := if 0 <? x then x else neg x.

(** [uint16_t] to [int] and back (the EEPROM word). *)
Definition of_uint16 (w : Z) : Z := wrap w.
Definition to_uint16 (z : Z) : Z := z mod 65536.

End Int16.

(** ** Colours and LED buffers *)

(** The [CRGB] constants the sketches store into the buffers. *)
Inductive CRGB : Type := Black | Red | Orange | Green | White.

#[global] Instance CRGB_eq_dec : EqDecision CRGB.
Proof. solve_decision. Defined.

#[global] Instance CRGB_inhabited : Inhabited CRGB := populate Black.

Definition is_lit (c : CRGB) : bool :=
  match c with Black => false | _ => true end.

Definition lit_count (l : list CRGB) : nat := length (filter (fun c => is_lit c = true) l).

(** ** Compile-time constants of a sketch *)

Record Config : Type := {
  NUM_LEDS : nat;
  AMBER_LEDS : Z;
  DISTANCE_TOLERANCE : Z;
  LED_TIMEOUT : Z;
  MAJOR_VER : nat;
  MINOR_VER : nat;
  startdistance : Z;
  (** the initialiser of the global [int stopdistance] *)
  stopdistance_static : Z;
  mirror_LEDs : bool
}.

(** [garage_parking_assistant.ino], version 1.10. *)
Definition sketch : Config := {|
  NUM_LEDS := 30; AMBER_LEDS := 5; DISTANCE_TOLERANCE := 5;
  LED_TIMEOUT := 60000; MAJOR_VER := 1; MINOR_VER := 10;
  startdistance := 400; stopdistance_static := 10; mirror_LEDs := true |}.

(** The archived 0.8 sketch (no version flash). *)
Definition sketch_v0_8 : Config := {|
  NUM_LEDS := 30; AMBER_LEDS := 5; DISTANCE_TOLERANCE := 5;
  LED_TIMEOUT := 60000; MAJOR_VER := 0; MINOR_VER := 8;
  startdistance := 50; stopdistance_static := 10; mirror_LEDs := true |}.

(** The archived 0.6 sketch (no version flash). *)
Definition sketch_v0_6 : Config := {|
  NUM_LEDS := 15; AMBER_LEDS := 4; DISTANCE_TOLERANCE := 3;
  LED_TIMEOUT := 60000; MAJOR_VER := 0; MINOR_VER := 6;
  startdistance := 395; stopdistance_static := 0; mirror_LEDs := true |}.

(** ** The idle timer *)

(** Modelled from the spec: the [MillisTimer] class ([run], [start], [reset],
    [isRunning]) is a library of its own and not part of the sketch.  The
    timer is the state machine {Idle, Running, Expired-handled} of the design:
    [start] begins the countdown if the timer is idle, [reset] cancels it,
    and a tick at which the elapsed time has reached the duration fires once
    and leaves the timer dormant until it is reset. *)
Inductive MillisTimer : Type :=
| Idle
| Running (since : Z)
| Expired.

Definition timer_isRunning (t : MillisTimer) : bool :=
  match t with Running _ => true | _ => false end.

Definition timer_start (now : Z) (t : MillisTimer) : MillisTimer :=
  match t with Idle => Running now | _ => t end.

Definition timer_reset (t : MillisTimer) : MillisTimer := Idle.

(** One tick: the new timer state and whether the callback is to be called. *)
Definition timer_tick (duration now : Z) (t : MillisTimer) : MillisTimer * bool :=
  match t with
  | Running since => if duration <=? now - since then (Expired, true) else (t, false)
  | _ => (t, false)
  end.

(** ** The globals of the sketch *)

Record State : Type := {
  leds_L : list CRGB;
  leds_R : list CRGB;
  distance : Z;
  previous_distance : Z;
  increment : Z;
  stopdistance : Z;
  (** the EEPROM word [stopdistance_ee], a [uint16_t] *)
  stopdistance_ee : Z;
  timer : MillisTimer;
  LED_sleep : bool;
  (** the frames pushed to the strips by [FastLED.show()], newest first *)
  shown : list (list CRGB * list CRGB)
}.

Definition set_leds (l r : list CRGB) (st : State) : State :=
  {| leds_L := l; leds_R := r; distance := distance st;
     previous_distance := previous_distance st; increment := increment st;
     stopdistance := stopdistance st; stopdistance_ee := stopdistance_ee st;
     timer := timer st; LED_sleep := LED_sleep st; shown := shown st |}.

Definition set_distance (d : Z) (st : State) : State :=
  {| leds_L := leds_L st; leds_R := leds_R st; distance := d;
     previous_distance := previous_distance st; increment := increment st;
     stopdistance := stopdistance st; stopdistance_ee := stopdistance_ee st;
     timer := timer st; LED_sleep := LED_sleep st; shown := shown st |}.

Definition set_previous_distance (d : Z) (st : State) : State :=
  {| leds_L := leds_L st; leds_R := leds_R st; distance := distance st;
     previous_distance := d; increment := increment st;
     stopdistance := stopdistance st; stopdistance_ee := stopdistance_ee st;
     timer := timer st; LED_sleep := LED_sleep st; shown := shown st |}.

Definition set_increment (d : Z) (st : State) : State :=
  {| leds_L := leds_L st; leds_R := leds_R st; distance := distance st;
     previous_distance := previous_distance st; increment := d;
     stopdistance := stopdistance st; stopdistance_ee := stopdistance_ee st;
     timer := timer st; LED_sleep := LED_sleep st; shown := shown st |}.

Definition set_stopdistance (d : Z) (st : State) : State :=
  {| leds_L := leds_L st; leds_R := leds_R st; distance := distance st;
     previous_distance := previous_distance st; increment := increment st;
     stopdistance := d; stopdistance_ee := stopdistance_ee st;
     timer := timer st; LED_sleep := LED_sleep st; shown := shown st |}.

Definition eeprom_write_word (w : Z) (st : State) : State :=
  {| leds_L := leds_L st; leds_R := leds_R st; distance := distance st;
     previous_distance := previous_distance st; increment := increment st;
     stopdistance := stopdistance st; stopdistance_ee := Int16.to_uint16 w;
     timer := timer st; LED_sleep := LED_sleep st; shown := shown st |}.

Definition eeprom_read_word (st : State) : Z := stopdistance_ee st.

Definition set_timer (t : MillisTimer) (st : State) : State :=
  {| leds_L := leds_L st; leds_R := leds_R st; distance := distance st;
     previous_distance := previous_distance st; increment := increment st;
     stopdistance := stopdistance st; stopdistance_ee := stopdistance_ee st;
     timer := t; LED_sleep := LED_sleep st; shown := shown st |}.

Definition set_LED_sleep (b : bool) (st : State) : State :=
  {| leds_L := leds_L st; leds_R := leds_R st; distance := distance st;
     previous_distance := previous_distance st; increment := increment st;
     stopdistance := stopdistance st; stopdistance_ee := stopdistance_ee st;
     timer := timer st; LED_sleep := b; shown := shown st |}.

(** [FastLED.show()] pushes the two buffers to the strips. *)
Definition FastLED_show (st : State) : State :=
  {| leds_L := leds_L st; leds_R := leds_R st; distance := distance st;
     previous_distance := previous_distance st; increment := increment st;
     stopdistance := stopdistance st; stopdistance_ee := stopdistance_ee st;
     timer := timer st; LED_sleep := LED_sleep st;
     shown := (leds_L st, leds_R st) :: shown st |}.

(** [for (i = 0; i < NUM_LEDS; i++) leds_L[i] = leds_R[i] = colour i;]
    The right buffer is assigned first and its value is then assigned to the
    left one.  (The loop counter is the global [i]; every loop sets it to 0
    first, so it carries nothing from one loop to the next.) *)
Definition assign_both (c : CRGB) (i : nat) (bufs : list CRGB * list CRGB)
  : list CRGB * list CRGB :=
  let r := <[i := c]> (snd bufs) in
  (<[i := c]> (fst bufs), r).

Definition for_leds (n : nat) (colour : nat -> CRGB) (st : State) : State :=
  let bufs := fold_left (fun bufs i => assign_both (colour i) i bufs)
                        (seq 0 n) (leds_L st, leds_R st) in
  set_leds (fst bufs) (snd bufs) st.

(** ** The sketch *)

Section Sketch.

Variable cfg : Config.

(** [sleepmode_start]: the handler registered with [timer.expiredHandler]. *)
Definition sleepmode_start (st : State) : State :=
  let st := for_leds (NUM_LEDS cfg) (fun _ => Black) st in
  let st := FastLED_show st in
  let st := set_timer (timer_reset (timer st)) st in
  set_LED_sleep true st.

(** [timer.run()]: one tick of the timer; the handler is called when it
    fires. *)
Definition timer_run (now : Z) (st : State) : State :=
  match timer_tick (LED_TIMEOUT cfg) now (timer st) with
  | (t, true) => sleepmode_start (set_timer t st)
  | (t, false) => set_timer t st
  end.

(** [increment = (startdistance - stopdistance)/NUM_LEDS;] *)
Definition recompute_increment (st : State) : State :=
  set_increment
    (Int16.div (Int16.sub (startdistance cfg) (stopdistance st))
               (Z.of_nat (NUM_LEDS cfg))) st.

(** The calibration part of [setup], the same in the three sketches:
    [if (!stopdistance) stopdistance = eeprom_read_word(&stopdistance_ee);]
    followed by the computation of [increment]. *)
Definition load_calibration (st : State) : State :=
  let st := if stopdistance st =? 0
            then set_stopdistance (Int16.of_uint16 (eeprom_read_word st)) st
            else st in
  recompute_increment st.

(** The colour of LED [i] in the version flash of [setup]. *)
Definition version_colour (i : nat) : CRGB :=
  if (i <? MAJOR_VER cfg)%nat then White
  else if (MAJOR_VER cfg <? i)%nat && (i <? MAJOR_VER cfg + 1 + MINOR_VER cfg)%nat
       then Red
       else Black.

(** [setup] of the current sketch. *)
Definition setup (st : State) : State :=
  let st := set_LED_sleep false st in
  let st := load_calibration st in
  let st := for_leds (NUM_LEDS cfg) version_colour st in
  let st := FastLED_show st in
  let st := for_leds (NUM_LEDS cfg) (fun _ => Black) st in
  FastLED_show st.

(** [setup] of the 0.8 and 0.6 sketches: no version flash. *)
Definition setup_v0_8 (st : State) : State :=
  load_calibration (set_LED_sleep false st).

(** The state at power-on, before [setup]: the globals are zero-initialised,
    [stopdistance] has its initialiser, the EEPROM holds [ee]. *)
Definition power_on (ee : Z) : State :=
  {| leds_L := replicate (NUM_LEDS cfg) Black;
     leds_R := replicate (NUM_LEDS cfg) Black;
     distance := 0; previous_distance := 0; increment := 0;
     stopdistance := stopdistance_static cfg; stopdistance_ee := ee;
     timer := Idle; LED_sleep := false; shown := [] |}.

(** What one iteration of [loop] reads from outside: [millis()] when
    [timer.run()] and [timer.start()] read it, the centimetres returned by
    the sensor, and whether the button pin reads [LOW]. *)
Record Inputs : Type := {
  millis_at_run : Z;
  ping_cm : Z;
  millis_at_start : Z;
  button_low : bool
}.

(** The tolerance check of [loop]. *)
Definition check_tolerance (inp : Inputs) (st : State) : State :=
  if Int16.abs (Int16.sub (distance st) (previous_distance st))
       <? DISTANCE_TOLERANCE cfg
  then
    if negb (timer_isRunning (timer st)) && negb (LED_sleep st)
    then set_timer (timer_start (millis_at_start inp) (timer st)) st
    else st
  else
    let st := set_previous_distance (distance st) st in
    let st := set_timer (timer_reset (timer st)) st in
    set_LED_sleep false st.

(** The button check of [loop]. *)
Definition check_button (inp : Inputs) (st : State) : State :=
  if button_low inp
  then
    let st := set_stopdistance (distance st) st in
    let st := eeprom_write_word (stopdistance st) st in
    recompute_increment st
  else st.

(** The first half of [loop], up to the button check; the same in the
    three sketches. *)
Definition control (inp : Inputs) (st : State) : State :=
  let st := timer_run (millis_at_run inp) st in
  let st := set_distance (Int16.wrap (ping_cm inp)) st in
  let st := check_tolerance inp st in
  check_button inp st.

(** The threshold of LED [i]: [stopdistance+increment*i]. *)
Definition threshold (st : State) (i : nat) : Z :=
  Int16.add (stopdistance st) (Int16.mul (increment st) (Z.of_nat i)).

(** The amber cutoff of the current sketch:
    [stopdistance+(AMBER_LEDS)*increment]. *)
Definition amber_cutoff (st : State) : Z :=
  Int16.add (stopdistance st) (Int16.mul (AMBER_LEDS cfg) (increment st)).

(** The graduated zone of the current sketch, LED [i]. *)
Definition graduated_colour (st : State) (i : nat) : CRGB :=
  if threshold st i <? distance st
  then (if distance st <=? amber_cutoff st then Orange else Green)
  else Black.

(** The display code of the current sketch (the body of [if (!LED_sleep)],
    before [FastLED.show()]). *)
Definition display (st : State) : State :=
  if startdistance cfg <? distance st
  then for_leds (NUM_LEDS cfg) (fun _ => Black) st
  else if distance st <=? stopdistance st
  then for_leds (NUM_LEDS cfg)
                (fun _ => if distance st =? 0 then Black else Red) st
  else for_leds (NUM_LEDS cfg) (graduated_colour st) st.

(** [loop] of the current sketch. *)
Definition loop (inp : Inputs) (st : State) : State :=
  let st := control inp st in
  if negb (LED_sleep st) then FastLED_show (display st) else st.

(** The amber test of the 0.8 and 0.6 sketches:
    [distance < (stopdistance+(AMBER_LEDS+1)*increment)]. *)
Definition amber_bound_v0_8 (st : State) : Z :=
  Int16.add (stopdistance st)
            (Int16.mul (Int16.add (AMBER_LEDS cfg) 1) (increment st)).

Definition graduated_colour_v0_8 (st : State) (i : nat) : CRGB :=
  if threshold st i <? distance st
  then (if distance st <? amber_bound_v0_8 st then Orange else Green)
  else Black.

(** The display code of the 0.8 sketch. *)
Definition display_v0_8 (st : State) : State :=
  if startdistance cfg <? distance st
  then for_leds (NUM_LEDS cfg) (fun _ => Black) st
  else if distance st <=? stopdistance st
  then for_leds (NUM_LEDS cfg)
                (fun _ => if distance st =? 0 then Black else Red) st
  else for_leds (NUM_LEDS cfg) (graduated_colour_v0_8 st) st.

Definition loop_v0_8 (inp : Inputs) (st : State) : State :=
  let st := control inp st in
  if negb (LED_sleep st) then FastLED_show (display_v0_8 st) else st.

(** The display code of the 0.6 sketch: red in the whole stop zone. *)
Definition display_v0_6 (st : State) : State :=
  if startdistance cfg <? distance st
  then for_leds (NUM_LEDS cfg) (fun _ => Black) st
  else if distance st <=? stopdistance st
  then for_leds (NUM_LEDS cfg) (fun _ => Red) st
  else for_leds (NUM_LEDS cfg) (graduated_colour_v0_8 st) st.

Definition loop_v0_6 (inp : Inputs) (st : State) : State :=
  let st := control inp st in
  if negb (LED_sleep st) then FastLED_show (display_v0_6 st) else st.

(** *** Predicates on states *)

(** The buffers are arrays of [NUM_LEDS] colours. *)
Definition buffers_ok (st : State) : Prop :=
  length (leds_L st) = NUM_LEDS cfg /\ length (leds_R st) = NUM_LEDS cfg.

(** [increment] is the one derived from the current [stopdistance]. *)
Definition increment_fresh (st : State) : Prop :=
  increment st =
  Int16.div (Int16.sub (startdistance cfg) (stopdistance st))
            (Z.of_nat (NUM_LEDS cfg)).

(** The invariant of the data model: 0 < stopDistance < startDistance. *)
Definition calibrated (st : State) : Prop :=
  0 < stopdistance st < startdistance cfg.

(** The states of a run: [setup] at power-on, then iterations of [loop]. *)
Inductive reachable : State -> Prop :=
| reach_setup ee : reachable (setup (power_on ee))
| reach_loop inp st : reachable st -> reachable (loop inp st).

End Sketch.

(** ** Auxiliary definitions for the statements *)

(** LED [i] of a strip is lit (not black). *)
Definition lit_at (l : list CRGB) (i : nat) : Prop :=
  exists c, l !! i = Some c /\ is_lit c = true.

(** No off LED precedes a lit one. *)
Definition contiguous_prefix (l : list CRGB) : Prop :=
  forall i j : nat, (i <= j)%nat -> lit_at l j -> lit_at l i.

(** A press of the button while the sensor reports [cm]. *)
Definition press (cm : Z) : Inputs :=
  {| millis_at_run := 0; ping_cm := cm; millis_at_start := 0; button_low := true |}.

(** A call on the timer other than [reset]. *)
Inductive TimerCall : Type :=
| CallTick (now : Z)
| CallStart (now : Z).

(** Perform the calls in order and count how often the callback fires. *)
Fixpoint timer_calls (duration : Z) (calls : list TimerCall) (t : MillisTimer)
  : MillisTimer * nat :=
  match calls with
  | [] => (t, 0%nat)
  | CallTick now :: rest =>
      let (t1, fired) := timer_tick duration now t in
      let (t2, n) := timer_calls duration rest t1 in
      (t2, ((if fired then 1 else 0) + n)%nat)
  | CallStart now :: rest => timer_calls duration rest (timer_start now t)
  end.

(** [timer.run()] at each of the given times, with the sketch's handler. *)
Definition run_all (cfg : Config) (nows : list Z) (st : State) : State :=
  fold_left (fun st now => timer_run cfg now st) nows st.

(** Iterations of [loop], one per element of [inps]. *)
Definition run_loop (cfg : Config) (inps : list Inputs) (st : State) : State :=
  fold_left (fun st inp => loop cfg inp st) inps st.

(** A power cycle: only the EEPROM word survives; [setup] runs again. *)
Definition reboot (cfg : Config) (st : State) : State :=
  setup cfg (power_on cfg (stopdistance_ee st)).

Definition reboot_v0_8 (cfg : Config) (st : State) : State :=
  setup_v0_8 cfg (power_on cfg (stopdistance_ee st)).

(** The constants and the stop distance are such that
    [startdistance - stopdistance] and the LED count fit the [int] range. *)
Definition layout_in_range (cfg : Config) (st : State) : Prop :=
  (0 < NUM_LEDS cfg)%nat /\ Z.of_nat (NUM_LEDS cfg) <= Int16.max_int /\
  Int16.in_range (stopdistance st) /\ Int16.in_range (startdistance cfg) /\
  startdistance cfg - stopdistance st <= Int16.max_int.

(** The sample of this iteration is within the tolerance of the stored
    previous distance (the condition of the first [if] of [loop]). *)
Definition within_tolerance (cfg : Config) (inp : Inputs) (st : State) : Prop :=
  Int16.abs (Int16.sub (Int16.wrap (ping_cm inp)) (previous_distance st))
    < DISTANCE_TOLERANCE cfg.

Arguments buffers_ok cfg st /.

(** * Properties *)

(** ** Facts about the 16-bit arithmetic *)

Ltac int16_arith :=
  unfold Int16.div, Int16.sub, Int16.add, Int16.mul, Int16.neg, Int16.abs,
    Int16.of_uint16, Int16.to_uint16, Int16.wrap, Int16.in_range,
    Int16.min_int, Int16.max_int in *;
  Z.to_euclidean_division_equations; lia.

Lemma wrap_in_range z : Int16.in_range (Int16.wrap z).
Proof.
  unfold Int16.in_range, Int16.wrap, Int16.min_int, Int16.max_int.
  pose proof (Z.mod_pos_bound (z + 32768) 65536). lia.
Qed.

Lemma wrap_id z : Int16.in_range z -> Int16.wrap z = z.
Proof.
  unfold Int16.in_range, Int16.wrap, Int16.min_int, Int16.max_int. intros H.
  rewrite Z.mod_small; lia.
Qed.

(** ** The buffer loops *)

Section ForLeds.

Variable colour : nat -> CRGB.

Let body := fun (bufs : list CRGB * list CRGB) (i : nat) =>
              assign_both (colour i) i bufs.

Lemma fold_assign_length (n a : nat) (bufs : list CRGB * list CRGB) :
  length (fst (fold_left body (seq a n) bufs)) = length (fst bufs) /\
  length (snd (fold_left body (seq a n) bufs)) = length (snd bufs).
Proof.
  revert a bufs. induction n as [|n IH]; intros a bufs; simpl; [done|].
  destruct (IH (S a) (body bufs a)) as [HL HR].
  rewrite HL, HR. unfold body, assign_both. simpl.
  by rewrite !length_insert.
Qed.

Lemma fold_assign_lookup (n a j : nat) (bufs : list CRGB * list CRGB) :
  (fst (fold_left body (seq a n) bufs) !! j =
     if decide (a <= j < a + n)%nat
     then (fun _ => colour j) <$> (fst bufs !! j) else fst bufs !! j) /\
  (snd (fold_left body (seq a n) bufs) !! j =
     if decide (a <= j < a + n)%nat
     then (fun _ => colour j) <$> (snd bufs !! j) else snd bufs !! j).
Proof.
  revert a bufs. induction n as [|n IH]; intros a bufs; simpl.
  - case_decide; [lia | done].
  - destruct (IH (S a) (body bufs a)) as [HL HR]. rewrite HL, HR.
    unfold body, assign_both. simpl.
    destruct (decide (j = a)) as [->|Hne].
    + split.
      * rewrite decide_False by lia. rewrite decide_True by lia.
        destruct (fst bufs !! a) eqn:E.
        -- rewrite list_lookup_insert_eq; [reflexivity | by eapply lookup_lt_Some].
        -- rewrite list_insert_ge by (by apply lookup_ge_None). by rewrite E.
      * rewrite decide_False by lia. rewrite decide_True by lia.
        destruct (snd bufs !! a) eqn:E.
        -- rewrite list_lookup_insert_eq; [reflexivity | by eapply lookup_lt_Some].
        -- rewrite list_insert_ge by (by apply lookup_ge_None). by rewrite E.
    + rewrite !list_lookup_insert_ne by done.
      split; repeat case_decide; try done; lia.
Qed.

End ForLeds.

(** After a loop over an array of [n] colours, the array holds [colour i] at
    every index [i]. *)
Lemma for_leds_L (n : nat) colour st :
  length (leds_L st) = n -> leds_L (for_leds n colour st) = colour <$> seq 0 n.
Proof.
  intros Hlen. unfold for_leds. simpl.
  apply list_eq. intros j.
  destruct (fold_assign_lookup colour n 0 j (leds_L st, leds_R st)) as [-> _].
  simpl. rewrite list_lookup_fmap.
  destruct (decide (j < n)%nat) as [Hj|Hj].
  - rewrite decide_True by lia. rewrite lookup_seq_lt by done.
    destruct (lookup_lt_is_Some_2 (leds_L st) j ltac:(lia)) as [c ->]. done.
  - rewrite decide_False by lia. rewrite lookup_seq_ge by lia.
    rewrite lookup_ge_None_2 by lia. done.
Qed.

Lemma for_leds_R (n : nat) colour st :
  length (leds_R st) = n -> leds_R (for_leds n colour st) = colour <$> seq 0 n.
Proof.
  intros Hlen. unfold for_leds. simpl.
  apply list_eq. intros j.
  destruct (fold_assign_lookup colour n 0 j (leds_L st, leds_R st)) as [_ ->].
  simpl. rewrite list_lookup_fmap.
  destruct (decide (j < n)%nat) as [Hj|Hj].
  - rewrite decide_True by lia. rewrite lookup_seq_lt by done.
    destruct (lookup_lt_is_Some_2 (leds_R st) j ltac:(lia)) as [c ->]. done.
  - rewrite decide_False by lia. rewrite lookup_seq_ge by lia.
    rewrite lookup_ge_None_2 by lia. done.
Qed.

Lemma for_leds_length (n : nat) colour st :
  length (leds_L (for_leds n colour st)) = length (leds_L st) /\
  length (leds_R (for_leds n colour st)) = length (leds_R st).
Proof.
  unfold for_leds. simpl.
  apply (fold_assign_length colour n 0 (leds_L st, leds_R st)).
Qed.

Lemma fmap_const_seq (c : CRGB) (a n : nat) :
  (fun _ => c) <$> seq a n = replicate n c.
Proof. revert a. induction n as [|n IH]; intros a; simpl; [done|]. by rewrite IH. Qed.

Lemma lookup_fmap_seq (colour : nat -> CRGB) (n i : nat) (c : CRGB) :
  (colour <$> seq 0 n) !! i = Some c <-> (i < n)%nat /\ c = colour i.
Proof.
  rewrite list_lookup_fmap. split.
  - intros H. destruct (decide (i < n)%nat) as [Hi|Hi].
    + rewrite lookup_seq_lt in H by done. simpl in H. split; [done | congruence].
    + rewrite lookup_seq_ge in H by lia. done.
  - intros [Hi ->]. by rewrite lookup_seq_lt.
Qed.

(** ** The display code, zone by zone *)

Section Display.

Variable cfg : Config.

Lemma display_fields st :
  distance (display cfg st) = distance st /\
  stopdistance (display cfg st) = stopdistance st /\
  increment (display cfg st) = increment st /\
  LED_sleep (display cfg st) = LED_sleep st /\
  timer (display cfg st) = timer st /\
  previous_distance (display cfg st) = previous_distance st.
Proof. unfold display. repeat case_match; done. Qed.

Lemma display_buffers_ok st :
  buffers_ok cfg st -> buffers_ok cfg (display cfg st).
Proof.
  simpl. intros [HL HR]. unfold display.
  repeat case_match;
    match goal with
    | |- context [for_leds ?n ?f ?s] =>
        destruct (for_leds_length n f s) as [-> ->]; done
    end.
Qed.

(** Beyond [startdistance] both strips are dark. *)
Lemma display_out_of_range st :
  buffers_ok cfg st -> startdistance cfg < distance st ->
  leds_L (display cfg st) = replicate (NUM_LEDS cfg) Black /\
  leds_R (display cfg st) = replicate (NUM_LEDS cfg) Black.
Proof.
  simpl. intros [HL HR] Hd. unfold display.
  rewrite (proj2 (Z.ltb_lt _ _) Hd).
  rewrite for_leds_L, for_leds_R by done. by rewrite fmap_const_seq.
Qed.

Lemma display_stop_zone st :
  buffers_ok cfg st ->
  distance st <= startdistance cfg -> distance st <= stopdistance st ->
  let c := if distance st =? 0 then Black else Red in
  leds_L (display cfg st) = replicate (NUM_LEDS cfg) c /\
  leds_R (display cfg st) = replicate (NUM_LEDS cfg) c.
Proof.
  simpl. intros [HL HR] Hstart Hstop. unfold display.
  rewrite (proj2 (Z.ltb_ge _ _) Hstart), (proj2 (Z.leb_le _ _) Hstop).
  rewrite for_leds_L, for_leds_R by done. by rewrite fmap_const_seq.
Qed.

Lemma display_graduated st :
  buffers_ok cfg st ->
  stopdistance st < distance st -> distance st <= startdistance cfg ->
  leds_L (display cfg st) = graduated_colour cfg st <$> seq 0 (NUM_LEDS cfg) /\
  leds_R (display cfg st) = graduated_colour cfg st <$> seq 0 (NUM_LEDS cfg).
Proof.
  simpl. intros [HL HR] Hstop Hstart. unfold display.
  rewrite (proj2 (Z.ltb_ge _ _) Hstart), (proj2 (Z.leb_gt _ _) Hstop).
  by rewrite for_leds_L, for_leds_R.
Qed.

(** In every zone the two buffers get the same colours. *)
Lemma display_mirrors st :
  buffers_ok cfg st -> leds_L (display cfg st) = leds_R (display cfg st).
Proof.
  intros Hok.
  destruct (Z.lt_ge_cases (startdistance cfg) (distance st)) as [Hfar|Hnear].
  - destruct (display_out_of_range st Hok Hfar) as [-> ->]. done.
  - destruct (Z.le_gt_cases (distance st) (stopdistance st)) as [Hstop|Hgrad].
    + destruct (display_stop_zone st Hok Hnear Hstop) as [-> ->]. done.
    + destruct (display_graduated st Hok Hgrad Hnear) as [-> ->]. done.
Qed.

(** The 0.8 and 0.6 display code, graduated zone. *)
Lemma display_v0_8_graduated st :
  buffers_ok cfg st ->
  stopdistance st < distance st -> distance st <= startdistance cfg ->
  leds_L (display_v0_8 cfg st) = graduated_colour_v0_8 cfg st <$> seq 0 (NUM_LEDS cfg) /\
  leds_R (display_v0_8 cfg st) = graduated_colour_v0_8 cfg st <$> seq 0 (NUM_LEDS cfg).
Proof.
  simpl. intros [HL HR] Hstop Hstart. unfold display_v0_8.
  rewrite (proj2 (Z.ltb_ge _ _) Hstart), (proj2 (Z.leb_gt _ _) Hstop).
  by rewrite for_leds_L, for_leds_R.
Qed.

End Display.

(** ** The amber/green cutoff *)

(** The colour of a lit LED in the graduated zone is decided by the value
    [amber_cutoff] of the sketch's [int] expression. *)
Lemma lit_colour_by_int_expression cfg st (i : nat) (c : CRGB) :
  buffers_ok cfg st ->
  stopdistance st < distance st -> distance st <= startdistance cfg ->
  leds_L (display cfg st) !! i = Some c \/ leds_R (display cfg st) !! i = Some c ->
  is_lit c = true ->
  (c = Orange <-> distance st <= amber_cutoff cfg st) /\
  (c = Green <-> ~ distance st <= amber_cutoff cfg st).
Proof.
  intros Hok Hstop Hstart Hlook Hlit.
  destruct (display_graduated cfg st Hok Hstop Hstart) as [HL HR].
  rewrite HL, HR in Hlook.
  assert (Hc : c = graduated_colour cfg st i).
  { destruct Hlook as [H|H]; apply lookup_fmap_seq in H; tauto. }
  subst c. unfold graduated_colour in *.
  destruct (threshold st i <? distance st); [|discriminate].
  destruct (Z.leb_spec (distance st) (amber_cutoff cfg st)).
  - split; split; intros; try done; lia.
  - split; split; intros; try done; lia.
Qed.

(** Without overflow the [int] expression has the value of
    stopdistance + AMBER_LEDS*increment. *)
Lemma amber_cutoff_value cfg st :
  Int16.in_range (AMBER_LEDS cfg * increment st) ->
  Int16.in_range (stopdistance st + AMBER_LEDS cfg * increment st) ->
  amber_cutoff cfg st = stopdistance st + AMBER_LEDS cfg * increment st.
Proof.
  intros Hmul Hadd. unfold amber_cutoff, Int16.add, Int16.mul.
  rewrite (wrap_id (AMBER_LEDS cfg * increment st)) by done.
  by apply wrap_id.
Qed.

(** C1. In the graduated zone (stopdistance < distance <= startdistance) of the
    current sketch, a lit LED of either strip, at whatever index, is orange
    if and only if distance <= stopdistance + AMBER_LEDS*increment, and green
    otherwise.  (The product and the sum are [int] values: they are assumed
    not to overflow, which holds in the runs of the sketch, see
    [run_amber_expression_in_range].) *)
Theorem amber_iff_within_cutoff cfg st (i : nat) (c : CRGB) :
  buffers_ok cfg st ->
  stopdistance st < distance st -> distance st <= startdistance cfg ->
  Int16.in_range (AMBER_LEDS cfg * increment st) ->
  Int16.in_range (stopdistance st + AMBER_LEDS cfg * increment st) ->
  leds_L (display cfg st) !! i = Some c \/ leds_R (display cfg st) !! i = Some c ->
  is_lit c = true ->
  (c = Orange <->
     distance st <= stopdistance st + AMBER_LEDS cfg * increment st) /\
  (c = Green <->
     ~ distance st <= stopdistance st + AMBER_LEDS cfg * increment st).
Proof.
  intros Hok Hstop Hstart Hmul Hadd Hlook Hlit.
  rewrite <- (amber_cutoff_value cfg st Hmul Hadd).
  by apply (lit_colour_by_int_expression cfg st i c).
Qed.

Lemma amber_iff_within_cutoff_witness :
  let st := set_distance 60 (setup sketch (power_on sketch 0)) in
  leds_L (display sketch st) !! 2%nat = Some Orange /\
  (Orange = Orange <->
     distance st <= stopdistance st + AMBER_LEDS sketch * increment st).
Proof.
  intros st. split; [reflexivity|].
  refine (proj1 (amber_iff_within_cutoff sketch st 2 Orange _ _ _ _ _ _ _)).
  - vm_compute. done.
  - vm_compute. reflexivity.
  - vm_compute. discriminate.
  - vm_compute. split; discriminate.
  - vm_compute. split; discriminate.
  - left. reflexivity.
  - reflexivity.
Defined.

(** The exact boundary with the sketch's constants (stop distance 10,
    increment 13, cutoff 10 + 5*13 = 75): five orange LEDs at 75 cm, six green
    LEDs at 76 cm. *)
Lemma amber_boundary_75_76 :
  let st := setup sketch (power_on sketch 0) in
  stopdistance st + AMBER_LEDS sketch * increment st = 75 /\
  leds_L (display sketch (set_distance 75 st)) =
    replicate 5 Orange ++ replicate 25 Black /\
  leds_L (display sketch (set_distance 76 st)) =
    replicate 6 Green ++ replicate 24 Black.
Proof. vm_compute. done. Qed.

(** ** The current sketch's constants: no overflow in the display code *)

(** With [startdistance = 400] and [NUM_LEDS = 30], the increment derived
    from a stop distance in [-32367, 400] is the exact quotient. *)
Lemma sketch_increment_exact (stop : Z) :
  -32367 <= stop <= 400 ->
  Int16.div (Int16.sub 400 stop) 30 = (400 - stop) ÷ 30 /\
  0 <= (400 - stop) ÷ 30 <= 1092 /\
  30 * ((400 - stop) ÷ 30) <= 400 - stop.
Proof. intros H. int16_arith. Qed.

(** From a stop distance below that range the subtraction wraps and the
    increment is negative. *)
Lemma sketch_increment_wrapped (stop : Z) :
  -32768 <= stop < -32367 ->
  -1092 <= Int16.div (Int16.sub 400 stop) 30 <= -1078.
Proof. intros H. int16_arith. Qed.

Lemma sketch_increment_fresh st :
  increment_fresh sketch st ->
  increment st = Int16.div (Int16.sub 400 (stopdistance st)) 30.
Proof. intros H. exact H. Qed.

Lemma sketch_threshold_exact st (i : nat) :
  increment_fresh sketch st -> -32367 <= stopdistance st <= 400 -> (i < 30)%nat ->
  threshold st i = stopdistance st + increment st * Z.of_nat i /\
  0 <= increment st /\ threshold st i <= 400.
Proof.
  intros Hinc Hstop Hi. apply sketch_increment_fresh in Hinc. unfold threshold.
  destruct (sketch_increment_exact _ Hstop) as (Hq & Hq0 & Hq30).
  rewrite Hq in Hinc. rewrite Hinc.
  set (q := (400 - stopdistance st) ÷ 30) in *.
  assert (Hp : 0 <= q * Z.of_nat i <= 29 * q) by nia.
  unfold Int16.add, Int16.mul.
  rewrite (wrap_id (q * Z.of_nat i)) by (unfold Int16.in_range, Int16.min_int, Int16.max_int; lia).
  rewrite wrap_id by (unfold Int16.in_range, Int16.min_int, Int16.max_int; lia).
  lia.
Qed.

Lemma sketch_threshold_wrapped st (i : nat) :
  increment_fresh sketch st -> -32768 <= stopdistance st < -32367 ->
  (1 <= i < 30)%nat -> 1100 <= threshold st i.
Proof.
  intros Hinc Hstop Hi. apply sketch_increment_fresh in Hinc. unfold threshold.
  pose proof (sketch_increment_wrapped _ Hstop) as Hq.
  rewrite <- Hinc in Hq.
  set (q := increment st) in *.
  assert (Hp : -31668 <= q * Z.of_nat i <= -1078) by nia.
  unfold Int16.add, Int16.mul.
  rewrite (wrap_id (q * Z.of_nat i)) by (unfold Int16.in_range, Int16.min_int, Int16.max_int; lia).
  unfold Int16.wrap. Z.to_euclidean_division_equations. lia.
Qed.

(** For the states the sensor and the button can produce (a stop distance
    that is not below -32367), the cutoff of the sketch is the mathematical
    stopdistance + AMBER_LEDS*increment. *)
Lemma sketch_amber_cutoff_exact st :
  increment_fresh sketch st -> -32367 <= stopdistance st <= 400 ->
  amber_cutoff sketch st = stopdistance st + 5 * increment st.
Proof.
  intros Hinc Hstop. apply sketch_increment_fresh in Hinc.
  unfold amber_cutoff. change (AMBER_LEDS sketch) with 5.
  destruct (sketch_increment_exact _ Hstop) as (Hq & Hq0 & Hq30).
  rewrite Hq in Hinc. rewrite Hinc.
  set (q := (400 - stopdistance st) ÷ 30) in *.
  unfold Int16.add, Int16.mul.
  rewrite (wrap_id (5 * q)) by (unfold Int16.in_range, Int16.min_int, Int16.max_int; lia).
  rewrite wrap_id by (unfold Int16.in_range, Int16.min_int, Int16.max_int; lia).
  done.
Qed.

(** The amber test of the 0.8 and 0.6 sketches, [distance < stopdistance +
    (AMBER_LEDS+1)*increment], is the same comparison as the current one when
    the increment is 1 (the 0.8 sketch with its own constants: (50-10)/30). *)
Lemma amber_test_v0_8_agrees_at_increment_1 cfg st :
  increment st = 1 -> Int16.in_range (AMBER_LEDS cfg + 1) -> 0 <= AMBER_LEDS cfg ->
  Int16.in_range (stopdistance st + AMBER_LEDS cfg + 1) ->
  Int16.in_range (stopdistance st) ->
  (distance st <? amber_bound_v0_8 cfg st) = (distance st <=? amber_cutoff cfg st).
Proof.
  unfold amber_bound_v0_8, amber_cutoff. intros -> Ha Ha0 Hs Hs0.
  unfold Int16.add, Int16.mul.
  rewrite (wrap_id (AMBER_LEDS cfg + 1)) by done.
  rewrite !Z.mul_1_r.
  rewrite (wrap_id (AMBER_LEDS cfg + 1)) by done.
  rewrite (wrap_id (AMBER_LEDS cfg))
    by (unfold Int16.in_range, Int16.min_int, Int16.max_int in *; lia).
  rewrite !wrap_id
    by (unfold Int16.in_range, Int16.min_int, Int16.max_int in *; lia).
  destruct (Z.ltb_spec (distance st) (stopdistance st + (AMBER_LEDS cfg + 1)));
    destruct (Z.leb_spec (distance st) (stopdistance st + AMBER_LEDS cfg)); lia.
Qed.

(** The 0.8 sketch with its own constants ([startdistance = 50],
    [NUM_LEDS = 30]): in the graduated zone the increment derived from a
    non-negative stop distance is 0 or 1, and its display code gives the
    buffers of the current display code. *)
Lemma v0_8_amber_test_same st :
  increment_fresh sketch_v0_8 st ->
  0 <= stopdistance st -> stopdistance st < distance st -> distance st <= 50 ->
  (distance st <? amber_bound_v0_8 sketch_v0_8 st) =
  (distance st <=? amber_cutoff sketch_v0_8 st).
Proof.
  intros Hinc H0 Hstop Hstart.
  assert (Hq : increment st = 0 \/ increment st = 1).
  { assert (H : increment st = Int16.div (Int16.sub 50 (stopdistance st)) 30)
      by exact Hinc.
    rewrite H. clear Hinc H. int16_arith. }
  assert (Hr : Int16.in_range (stopdistance st))
    by (unfold Int16.in_range, Int16.min_int, Int16.max_int; lia).
  destruct Hq as [Hq|Hq].
  - unfold amber_bound_v0_8, amber_cutoff. rewrite Hq.
    unfold Int16.add at 1 3, Int16.mul. rewrite !Z.mul_0_r.
    change (Int16.wrap 0) with 0. rewrite !Z.add_0_r, !wrap_id by done.
    destruct (Z.ltb_spec (distance st) (stopdistance st));
      destruct (Z.leb_spec (distance st) (stopdistance st)); lia.
  - apply amber_test_v0_8_agrees_at_increment_1; try done;
      change (AMBER_LEDS sketch_v0_8) with 5;
      unfold Int16.in_range, Int16.min_int, Int16.max_int; lia.
Qed.

Lemma display_v0_8_same_as_current st :
  buffers_ok sketch_v0_8 st -> increment_fresh sketch_v0_8 st ->
  0 <= stopdistance st -> stopdistance st < distance st -> distance st <= 50 ->
  leds_L (display_v0_8 sketch_v0_8 st) = leds_L (display sketch_v0_8 st) /\
  leds_R (display_v0_8 sketch_v0_8 st) = leds_R (display sketch_v0_8 st).
Proof.
  intros Hok Hinc H0 Hstop Hstart.
  destruct (display_v0_8_graduated sketch_v0_8 st Hok Hstop Hstart) as [-> ->].
  destruct (display_graduated sketch_v0_8 st Hok Hstop Hstart) as [-> ->].
  assert (Hsame : forall i, graduated_colour_v0_8 sketch_v0_8 st i =
                            graduated_colour sketch_v0_8 st i).
  { intros i. unfold graduated_colour_v0_8, graduated_colour.
    by rewrite v0_8_amber_test_same. }
  split; apply list_fmap_ext; intros; apply Hsame.
Qed.

(** With a larger increment the two tests differ: the 0.6 sketch (increment
    26 from [startdistance = 395], [NUM_LEDS = 15], stop distance 0) still
    shows orange at 105 cm, one increment beyond 0 + 4*26 = 104. *)
Lemma amber_test_v0_6_differs :
  let st := set_distance 105 (setup_v0_8 sketch_v0_6 (power_on sketch_v0_6 0)) in
  increment st = 26 /\
  leds_L (display_v0_6 sketch_v0_6 st) = replicate 5 Orange ++ replicate 10 Black /\
  leds_L (display sketch_v0_6 st) = replicate 5 Green ++ replicate 10 Black.
Proof. vm_compute. done. Qed.

(** ** The stop zone *)

(** C2. For a distance with 0 < distance <= stopdistance (and not beyond
    startdistance, which the display code tests first) all NUM_LEDS LEDs of
    both strips are red; for distance = 0 they are all black. *)
Theorem stop_zone_red_zero_black cfg st :
  buffers_ok cfg st ->
  distance st <= startdistance cfg -> distance st <= stopdistance st ->
  (0 < distance st ->
     leds_L (display cfg st) = replicate (NUM_LEDS cfg) Red /\
     leds_R (display cfg st) = replicate (NUM_LEDS cfg) Red) /\
  (distance st = 0 ->
     leds_L (display cfg st) = replicate (NUM_LEDS cfg) Black /\
     leds_R (display cfg st) = replicate (NUM_LEDS cfg) Black).
Proof.
  intros Hok Hstart Hstop.
  pose proof (display_stop_zone cfg st Hok Hstart Hstop) as H. simpl in H.
  split.
  - intros Hpos. destruct (Z.eqb_spec (distance st) 0); [lia | done].
  - intros Hzero. rewrite Hzero in H. done.
Qed.

Lemma stop_zone_red_zero_black_witness :
  let st := set_distance 7 (setup sketch (power_on sketch 0)) in
  let st0 := set_distance 0 (setup sketch (power_on sketch 0)) in
  leds_L (display sketch st) = replicate 30 Red /\
  leds_L (display sketch st0) = replicate 30 Black.
Proof.
  intros st st0. split.
  - refine (proj1 (proj1 (stop_zone_red_zero_black sketch st _ _ _) _)).
    + vm_compute. done.
    + vm_compute. discriminate.
    + vm_compute. discriminate.
    + vm_compute. reflexivity.
  - refine (proj1 (proj2 (stop_zone_red_zero_black sketch st0 _ _ _) _)).
    + vm_compute. done.
    + vm_compute. discriminate.
    + vm_compute. discriminate.
    + reflexivity.
Defined.

(** The 0.6 sketch had no test for zero: at distance 0 (no echo) it shows
    red. *)
Lemma stop_zone_v0_6_red_at_zero :
  let st := set_distance 0 (setup_v0_8 sketch_v0_6 (power_on sketch_v0_6 0)) in
  leds_L (display_v0_6 sketch_v0_6 st) = replicate 15 Red /\
  leds_R (display_v0_6 sketch_v0_6 st) = replicate 15 Red.
Proof. vm_compute. done. Qed.

(** ** The scenario of the testable properties *)

(** C4. With startdistance = 400, stopdistance = 10, NUM_LEDS = 30,
    AMBER_LEDS = 5 (the constants of the current sketch) the increment
    derived by [setup] is 13, and a cycle that measures 100 cm lights exactly
    the 7 LEDs 0..6 of each strip, all of them green. *)
Theorem scenario_100cm (ee m_run m_start : Z) :
  let inp := {| millis_at_run := m_run; ping_cm := 100;
                millis_at_start := m_start; button_low := false |} in
  let st0 := setup sketch (power_on sketch ee) in
  let st := loop sketch inp st0 in
  stopdistance st0 = 10 /\ increment st0 = 13 /\
  distance st = 100 /\ increment st = 13 /\
  leds_L st = replicate 7 Green ++ replicate 23 Black /\
  leds_R st = replicate 7 Green ++ replicate 23 Black /\
  lit_count (leds_L st) = 7%nat.
Proof. vm_compute. done. Qed.

(** ** Lit prefixes *)

Lemma lit_at_cons_S c l i : lit_at (c :: l) (S i) <-> lit_at l i.
Proof. done. Qed.

Lemma lit_at_cons_0 c l : lit_at (c :: l) 0 <-> is_lit c = true.
Proof.
  unfold lit_at. simpl. split.
  - intros (c' & [= ->] & H). done.
  - intros H. by exists c.
Qed.

Lemma lit_count_cons c l :
  lit_count (c :: l) = if is_lit c then S (lit_count l) else lit_count l.
Proof.
  unfold lit_count. rewrite filter_cons.
  destruct (is_lit c) eqn:E; case_decide; try done.
Qed.

Lemma contiguous_prefix_tail c l :
  contiguous_prefix (c :: l) -> contiguous_prefix l.
Proof.
  intros H i j Hij Hj. apply (lit_at_cons_S c). apply (H (S i) (S j)); [lia|].
  by apply lit_at_cons_S.
Qed.

(** A contiguous lit prefix is the set of indices below the lit count. *)
Lemma contiguous_prefix_count l :
  contiguous_prefix l -> forall i : nat, lit_at l i <-> (i < lit_count l)%nat.
Proof.
  induction l as [|c l IH]; intros Hpre i.
  - unfold lit_at, lit_count. simpl. split; [intros (c & H & _); done | lia].
  - specialize (IH (contiguous_prefix_tail _ _ Hpre)).
    rewrite lit_count_cons. destruct (is_lit c) eqn:Hc.
    + destruct i as [|i].
      * rewrite lit_at_cons_0. split; [lia | done].
      * rewrite lit_at_cons_S, IH. lia.
    + assert (Hnone : forall j, ~ lit_at (c :: l) j).
      { intros j Hj. apply (Hpre 0%nat j) in Hj; [|lia].
        apply lit_at_cons_0 in Hj. congruence. }
      assert (Hzero : lit_count l = 0%nat).
      { destruct (lit_count l) as [|n] eqn:E; [done|].
        exfalso. apply (Hnone 1%nat). apply lit_at_cons_S, IH. lia. }
      rewrite Hzero. split; [intros H; by apply Hnone in H | lia].
Qed.

Lemma lit_count_fmap_mono (f g : nat -> CRGB) (l : list nat) :
  (forall i, i ∈ l -> is_lit (f i) = true -> is_lit (g i) = true) ->
  (lit_count (f <$> l) <= lit_count (g <$> l))%nat.
Proof.
  induction l as [|a l IH]; intros H; [done|].
  rewrite !fmap_cons, !lit_count_cons.
  assert (IH' : (lit_count (f <$> l) <= lit_count (g <$> l))%nat).
  { apply IH. intros i Hi. apply H. by right. }
  destruct (is_lit (f a)) eqn:Hf.
  - rewrite (H a) by (done || left). lia.
  - destruct (is_lit (g a)); lia.
Qed.

Lemma lit_at_fmap_seq (colour : nat -> CRGB) (n i : nat) :
  lit_at (colour <$> seq 0 n) i <-> (i < n)%nat /\ is_lit (colour i) = true.
Proof.
  unfold lit_at. split.
  - intros (c & Hc & Hlit). apply lookup_fmap_seq in Hc as [Hi ->]. done.
  - intros [Hi Hlit]. exists (colour i). split; [|done].
    by apply lookup_fmap_seq.
Qed.

Lemma graduated_colour_lit cfg st i :
  is_lit (graduated_colour cfg st i) = true <-> threshold st i < distance st.
Proof.
  unfold graduated_colour.
  destruct (Z.ltb_spec (threshold st i) (distance st)).
  - destruct (distance st <=? amber_cutoff cfg st); done.
  - split; [done | lia].
Qed.

(** The thresholds of the current sketch: an LED that is lit has every
    earlier LED lit too. *)
Lemma sketch_lit_downward st (i j : nat) :
  increment_fresh sketch st -> Int16.in_range (stopdistance st) ->
  stopdistance st < distance st -> distance st <= 400 ->
  (i <= j < 30)%nat ->
  threshold st j < distance st -> threshold st i < distance st.
Proof.
  intros Hinc Hrange Hstop Hstart Hij Hj.
  unfold Int16.in_range, Int16.min_int, Int16.max_int in Hrange.
  destruct (Z.le_gt_cases (-32367) (stopdistance st)) as [Hlow|Hlow].
  - destruct (sketch_threshold_exact st i Hinc ltac:(lia) ltac:(lia)) as (Hi & Hq & _).
    destruct (sketch_threshold_exact st j Hinc ltac:(lia) ltac:(lia)) as (Hj' & _ & _).
    rewrite Hi. rewrite Hj' in Hj. nia.
  - destruct (decide (j = 0)%nat) as [->|Hj0].
    + by replace i with 0%nat by lia.
    + pose proof (sketch_threshold_wrapped st j Hinc ltac:(lia) ltac:(lia)). lia.
Qed.

Lemma sketch_graduated_contiguous st :
  buffers_ok sketch st -> increment_fresh sketch st ->
  Int16.in_range (stopdistance st) ->
  stopdistance st < distance st -> distance st <= startdistance sketch ->
  contiguous_prefix (leds_L (display sketch st)).
Proof.
  intros Hok Hinc Hrange Hstop Hstart.
  destruct (display_graduated sketch st Hok Hstop Hstart) as [-> _].
  intros i j Hij Hj.
  apply lit_at_fmap_seq in Hj as [Hjn Hj]. apply lit_at_fmap_seq.
  change (NUM_LEDS sketch) with 30%nat in *.
  split; [lia|].
  apply graduated_colour_lit. apply graduated_colour_lit in Hj.
  by apply (sketch_lit_downward st i j).
Qed.

(** C3. In the graduated zone (stopdistance < distance <= startdistance) of
    the current sketch, with the increment derived from the stop distance as
    [setup] and the button leave it, the lit LEDs of a strip are a contiguous
    prefix from index 0: no off LED precedes a lit one, and the lit indices
    are exactly those below the lit count.  The length of the prefix does not
    decrease when the distance increases within the zone. *)
Theorem lit_prefix_contiguous_monotone st (d1 d2 : Z) :
  buffers_ok sketch st -> increment_fresh sketch st ->
  Int16.in_range (stopdistance st) ->
  stopdistance st < d1 -> d1 <= d2 -> d2 <= startdistance sketch ->
  let l1 := leds_L (display sketch (set_distance d1 st)) in
  let l2 := leds_L (display sketch (set_distance d2 st)) in
  contiguous_prefix l1 /\ contiguous_prefix l2 /\
  (forall i : nat, lit_at l1 i <-> (i < lit_count l1)%nat) /\
  (forall i : nat, lit_at l2 i <-> (i < lit_count l2)%nat) /\
  (lit_count l1 <= lit_count l2)%nat /\
  leds_R (display sketch (set_distance d1 st)) = l1 /\
  leds_R (display sketch (set_distance d2 st)) = l2.
Proof.
  intros Hok Hinc Hrange Hd1 Hd12 Hd2 l1 l2.
  change (startdistance sketch) with 400 in Hd2.
  assert (Hc1 : contiguous_prefix l1).
  { apply sketch_graduated_contiguous; try done; simpl; lia. }
  assert (Hc2 : contiguous_prefix l2).
  { apply sketch_graduated_contiguous; try done; simpl; lia. }
  split; [done|]. split; [done|].
  split; [by apply contiguous_prefix_count|].
  split; [by apply contiguous_prefix_count|].
  split.
  - subst l1 l2.
    destruct (display_graduated sketch (set_distance d1 st)) as [-> _];
      [done | simpl; lia | simpl; lia |].
    destruct (display_graduated sketch (set_distance d2 st)) as [-> _];
      [done | simpl; lia | simpl; lia |].
    apply lit_count_fmap_mono. intros i _ Hlit.
    apply graduated_colour_lit. apply graduated_colour_lit in Hlit.
    unfold threshold in *. simpl in *. lia.
  - split; symmetry; by apply display_mirrors.
Qed.

Lemma lit_prefix_contiguous_monotone_witness :
  let st := setup sketch (power_on sketch 0) in
  (lit_count (leds_L (display sketch (set_distance 100 st))) <=
   lit_count (leds_L (display sketch (set_distance 200 st))))%nat.
Proof.
  intros st.
  refine (proj1 (proj2 (proj2 (proj2 (proj2
    (lit_prefix_contiguous_monotone st 100 200 _ _ _ _ _ _)))))).
  - vm_compute. done.
  - vm_compute. done.
  - vm_compute. split; discriminate.
  - vm_compute. done.
  - lia.
  - vm_compute. discriminate.
Defined.

(** The same for any constants, as long as the subtraction
    [startdistance - stopdistance] stays in the [int] range: the thresholds
    are exact and do not decrease with the index, so the lit LEDs are a
    contiguous prefix. *)
Lemma threshold_exact cfg st (i : nat) :
  increment_fresh cfg st ->
  (0 < NUM_LEDS cfg)%nat -> Z.of_nat (NUM_LEDS cfg) <= Int16.max_int ->
  Int16.in_range (stopdistance st) -> Int16.in_range (startdistance cfg) ->
  stopdistance st <= startdistance cfg ->
  startdistance cfg - stopdistance st <= Int16.max_int ->
  (i < NUM_LEDS cfg)%nat ->
  threshold st i = stopdistance st + increment st * Z.of_nat i /\
  0 <= increment st.
Proof.
  unfold increment_fresh, Int16.in_range, Int16.min_int, Int16.max_int.
  intros Hinc Hn0 Hn Hstop Hstart Hle Hsub Hi.
  set (n := Z.of_nat (NUM_LEDS cfg)) in *.
  set (span := startdistance cfg - stopdistance st) in *.
  assert (Hq : 0 <= span ÷ n /\ n * (span ÷ n) <= span).
  { rewrite Z.quot_div_nonneg by lia. split.
    - apply Z.div_pos; lia.
    - apply Z.mul_div_le. lia. }
  assert (Hinc' : increment st = span ÷ n).
  { rewrite Hinc. unfold Int16.div, Int16.sub. fold span.
    rewrite (wrap_id span)
      by (unfold Int16.in_range, Int16.min_int, Int16.max_int; lia).
    apply wrap_id. unfold Int16.in_range, Int16.min_int, Int16.max_int. nia. }
  rewrite Hinc'. destruct Hq as [Hq0 Hqn].
  assert (Hp : 0 <= span ÷ n * Z.of_nat i <= span) by nia.
  unfold threshold, Int16.add, Int16.mul. rewrite Hinc'.
  rewrite (wrap_id (span ÷ n * Z.of_nat i))
    by (unfold Int16.in_range, Int16.min_int, Int16.max_int; lia).
  rewrite wrap_id
    by (unfold Int16.in_range, Int16.min_int, Int16.max_int; lia).
  done.
Qed.

Lemma graduated_contiguous cfg st :
  buffers_ok cfg st -> increment_fresh cfg st ->
  (0 < NUM_LEDS cfg)%nat -> Z.of_nat (NUM_LEDS cfg) <= Int16.max_int ->
  Int16.in_range (stopdistance st) -> Int16.in_range (startdistance cfg) ->
  startdistance cfg - stopdistance st <= Int16.max_int ->
  stopdistance st < distance st -> distance st <= startdistance cfg ->
  contiguous_prefix (leds_L (display cfg st)) /\
  contiguous_prefix (leds_L (display_v0_8 cfg st)) /\
  lit_count (leds_L (display_v0_8 cfg st)) = lit_count (leds_L (display cfg st)).
Proof.
  intros Hok Hinc Hn0 Hn Hstop Hstart Hsub Hzone1 Hzone2.
  destruct (display_graduated cfg st Hok Hzone1 Hzone2) as [-> _].
  destruct (display_v0_8_graduated cfg st Hok Hzone1 Hzone2) as [-> _].
  assert (Hdown : forall i j : nat, (i <= j < NUM_LEDS cfg)%nat ->
            threshold st j < distance st -> threshold st i < distance st).
  { intros i j Hij Hj.
    destruct (threshold_exact cfg st i) as [Hi Hq]; try done; try lia.
    destruct (threshold_exact cfg st j) as [Hj' _]; try done; try lia.
    rewrite Hi. rewrite Hj' in Hj. nia. }
  assert (Hlit8 : forall i, is_lit (graduated_colour_v0_8 cfg st i) = true <->
                            threshold st i < distance st).
  { intros i. unfold graduated_colour_v0_8.
    destruct (Z.ltb_spec (threshold st i) (distance st)).
    - destruct (distance st <? amber_bound_v0_8 cfg st); done.
    - split; [done | lia]. }
  split; [|split].
  - intros i j Hij Hj. apply lit_at_fmap_seq in Hj as [Hjn Hj].
    apply lit_at_fmap_seq. split; [lia|].
    apply graduated_colour_lit. apply graduated_colour_lit in Hj.
    apply (Hdown i j); [lia | done].
  - intros i j Hij Hj. apply lit_at_fmap_seq in Hj as [Hjn Hj].
    apply lit_at_fmap_seq. split; [lia|].
    apply Hlit8. apply Hlit8 in Hj. apply (Hdown i j); [lia | done].
  - apply Nat.le_antisymm; apply lit_count_fmap_mono; intros i _ Hl.
    + apply graduated_colour_lit. by apply Hlit8 in Hl.
    + apply Hlit8. by apply graduated_colour_lit in Hl.
Qed.

(** ** The control part of [loop] *)

Section Control.

Variable cfg : Config.

Lemma sleepmode_start_fields st :
  LED_sleep (sleepmode_start cfg st) = true /\
  timer (sleepmode_start cfg st) = Idle /\
  stopdistance (sleepmode_start cfg st) = stopdistance st /\
  increment (sleepmode_start cfg st) = increment st /\
  previous_distance (sleepmode_start cfg st) = previous_distance st /\
  stopdistance_ee (sleepmode_start cfg st) = stopdistance_ee st.
Proof. done. Qed.

Lemma sleepmode_start_blanks st :
  buffers_ok cfg st ->
  leds_L (sleepmode_start cfg st) = replicate (NUM_LEDS cfg) Black /\
  leds_R (sleepmode_start cfg st) = replicate (NUM_LEDS cfg) Black.
Proof.
  simpl. intros [HL HR]. unfold sleepmode_start. simpl.
  change (leds_L (for_leds (NUM_LEDS cfg) (fun _ => Black) st) =
            replicate (NUM_LEDS cfg) Black /\
          leds_R (for_leds (NUM_LEDS cfg) (fun _ => Black) st) =
            replicate (NUM_LEDS cfg) Black).
  rewrite for_leds_L, for_leds_R by done. by rewrite fmap_const_seq.
Qed.

Lemma timer_run_fields now st :
  stopdistance (timer_run cfg now st) = stopdistance st /\
  increment (timer_run cfg now st) = increment st /\
  previous_distance (timer_run cfg now st) = previous_distance st /\
  stopdistance_ee (timer_run cfg now st) = stopdistance_ee st.
Proof.
  unfold timer_run. destruct (timer_tick _ _ _) as [t [|]]; done.
Qed.

Lemma timer_run_buffers_ok now st :
  buffers_ok cfg st -> buffers_ok cfg (timer_run cfg now st).
Proof.
  simpl. intros [HL HR]. unfold timer_run.
  destruct (timer_tick _ _ _) as [t [|]]; [|done].
  unfold sleepmode_start. simpl.
  destruct (for_leds_length (NUM_LEDS cfg) (fun _ => Black) (set_timer t st))
    as [HL' HR'].
  split; [etrans; [exact HL'|done] | etrans; [exact HR'|done]].
Qed.

Lemma check_tolerance_fields inp st :
  stopdistance (check_tolerance cfg inp st) = stopdistance st /\
  increment (check_tolerance cfg inp st) = increment st /\
  distance (check_tolerance cfg inp st) = distance st /\
  leds_L (check_tolerance cfg inp st) = leds_L st /\
  leds_R (check_tolerance cfg inp st) = leds_R st /\
  shown (check_tolerance cfg inp st) = shown st.
Proof. unfold check_tolerance. repeat case_match; done. Qed.

(** The else branch of the tolerance check. *)
Lemma check_tolerance_moved inp st :
  DISTANCE_TOLERANCE cfg <=
    Int16.abs (Int16.sub (distance st) (previous_distance st)) ->
  LED_sleep (check_tolerance cfg inp st) = false /\
  timer (check_tolerance cfg inp st) = Idle /\
  previous_distance (check_tolerance cfg inp st) = distance st.
Proof.
  intros H. unfold check_tolerance.
  rewrite (proj2 (Z.ltb_ge _ _) H). done.
Qed.

Lemma check_button_fields inp st :
  distance (check_button cfg inp st) = distance st /\
  LED_sleep (check_button cfg inp st) = LED_sleep st /\
  timer (check_button cfg inp st) = timer st /\
  previous_distance (check_button cfg inp st) = previous_distance st /\
  leds_L (check_button cfg inp st) = leds_L st /\
  leds_R (check_button cfg inp st) = leds_R st /\
  shown (check_button cfg inp st) = shown st.
Proof. unfold check_button. destruct (button_low inp); done. Qed.

(** What the button check leaves in [stopdistance] and [increment]. *)
Lemma check_button_calibration inp st :
  stopdistance (check_button cfg inp st) =
    (if button_low inp then distance st else stopdistance st) /\
  increment (check_button cfg inp st) =
    (if button_low inp
     then Int16.div (Int16.sub (startdistance cfg) (distance st))
                    (Z.of_nat (NUM_LEDS cfg))
     else increment st).
Proof. unfold check_button. destruct (button_low inp); done. Qed.

Lemma control_distance inp st :
  distance (control cfg inp st) = Int16.wrap (ping_cm inp).
Proof.
  unfold control.
  destruct (check_button_fields inp
    (check_tolerance cfg inp
       (set_distance (Int16.wrap (ping_cm inp))
          (timer_run cfg (millis_at_run inp) st)))) as (-> & _).
  destruct (check_tolerance_fields inp
    (set_distance (Int16.wrap (ping_cm inp))
       (timer_run cfg (millis_at_run inp) st))) as (_ & _ & -> & _).
  done.
Qed.

Lemma control_calibration inp st :
  stopdistance (control cfg inp st) =
    (if button_low inp then Int16.wrap (ping_cm inp) else stopdistance st) /\
  increment (control cfg inp st) =
    (if button_low inp
     then Int16.div (Int16.sub (startdistance cfg) (Int16.wrap (ping_cm inp)))
                    (Z.of_nat (NUM_LEDS cfg))
     else increment st).
Proof.
  unfold control.
  set (st1 := set_distance (Int16.wrap (ping_cm inp))
                (timer_run cfg (millis_at_run inp) st)).
  destruct (check_button_calibration inp (check_tolerance cfg inp st1)) as [-> ->].
  destruct (check_tolerance_fields inp st1) as (-> & -> & -> & _).
  subst st1. simpl.
  destruct (timer_run_fields (millis_at_run inp) st) as (-> & -> & _).
  done.
Qed.

Lemma control_buffers_ok inp st :
  buffers_ok cfg st -> buffers_ok cfg (control cfg inp st).
Proof.
  intros Hok. unfold control.
  set (st1 := set_distance (Int16.wrap (ping_cm inp))
                (timer_run cfg (millis_at_run inp) st)).
  assert (H1 : buffers_ok cfg st1) by (by apply timer_run_buffers_ok).
  unfold buffers_ok in *.
  destruct (check_button_fields inp (check_tolerance cfg inp st1))
    as (_ & _ & _ & _ & -> & -> & _).
  destruct (check_tolerance_fields inp st1) as (_ & _ & _ & -> & -> & _).
  done.
Qed.

Lemma control_increment_fresh inp st :
  increment_fresh cfg st -> increment_fresh cfg (control cfg inp st).
Proof.
  unfold increment_fresh. intros H.
  destruct (control_calibration inp st) as [-> ->].
  destruct (button_low inp); done.
Qed.

Lemma loop_calibration inp st :
  stopdistance (loop cfg inp st) = stopdistance (control cfg inp st) /\
  increment (loop cfg inp st) = increment (control cfg inp st) /\
  distance (loop cfg inp st) = distance (control cfg inp st) /\
  LED_sleep (loop cfg inp st) = LED_sleep (control cfg inp st) /\
  timer (loop cfg inp st) = timer (control cfg inp st) /\
  previous_distance (loop cfg inp st) = previous_distance (control cfg inp st).
Proof.
  unfold loop. destruct (LED_sleep (control cfg inp st)) eqn:E; simpl; [done|].
  destruct (display_fields cfg (control cfg inp st)) as (-> & -> & -> & -> & -> & ->).
  done.
Qed.

Lemma loop_buffers_ok inp st :
  buffers_ok cfg st -> buffers_ok cfg (loop cfg inp st).
Proof.
  intros Hok. apply (control_buffers_ok inp) in Hok.
  unfold loop. destruct (LED_sleep (control cfg inp st)); simpl; [done|].
  by apply display_buffers_ok.
Qed.

Lemma load_calibration_fresh st : increment_fresh cfg (load_calibration cfg st).
Proof. done. Qed.

Lemma setup_fields st :
  stopdistance (setup cfg st) = stopdistance (load_calibration cfg st) /\
  increment (setup cfg st) = increment (load_calibration cfg st) /\
  LED_sleep (setup cfg st) = false /\
  timer (setup cfg st) = timer st.
Proof. unfold setup, load_calibration. simpl. case_match; done. Qed.

Lemma setup_buffers_ok st :
  buffers_ok cfg st ->
  leds_L (setup cfg st) = replicate (NUM_LEDS cfg) Black /\
  leds_R (setup cfg st) = replicate (NUM_LEDS cfg) Black.
Proof.
  simpl. intros [HL HR]. unfold setup.
  set (st1 := for_leds (NUM_LEDS cfg) (version_colour cfg)
                (load_calibration cfg (set_LED_sleep false st))).
  assert (H1 : length (leds_L st1) = NUM_LEDS cfg /\
               length (leds_R st1) = NUM_LEDS cfg).
  { subst st1.
    destruct (for_leds_length (NUM_LEDS cfg) (version_colour cfg)
                (load_calibration cfg (set_LED_sleep false st))) as [-> ->].
    unfold load_calibration. case_match; done. }
  destruct H1 as [HL1 HR1].
  change (leds_L (for_leds (NUM_LEDS cfg) (fun _ => Black) (FastLED_show st1)) =
            replicate (NUM_LEDS cfg) Black /\
          leds_R (for_leds (NUM_LEDS cfg) (fun _ => Black) (FastLED_show st1)) =
            replicate (NUM_LEDS cfg) Black).
  rewrite for_leds_L, for_leds_R by done. by rewrite fmap_const_seq.
Qed.

(** The invariants of a run. *)
Lemma reachable_invariants st :
  reachable cfg st -> buffers_ok cfg st /\ increment_fresh cfg st.
Proof.
  induction 1 as [ee | inp st Hreach [Hok Hinc]].
  - split.
    + destruct (setup_buffers_ok (power_on cfg ee)) as [HL HR].
      { simpl. by rewrite !length_replicate. }
      unfold buffers_ok. rewrite HL, HR. by rewrite !length_replicate.
    + unfold increment_fresh.
      destruct (setup_fields (power_on cfg ee)) as (-> & -> & _).
      apply load_calibration_fresh.
  - split; [by apply loop_buffers_ok|].
    unfold increment_fresh.
    destruct (loop_calibration inp st) as (-> & -> & _).
    by apply control_increment_fresh.
Qed.

End Control.

(** The states of a run of the current sketch have a stop distance in the
    [int] range, buffers of [NUM_LEDS] entries and the increment derived from
    the stop distance. *)
Lemma reachable_sketch_state st :
  reachable sketch st ->
  buffers_ok sketch st /\ increment_fresh sketch st /\
  Int16.in_range (stopdistance st).
Proof.
  intros Hreach. destruct (reachable_invariants sketch st Hreach) as [Hok Hinc].
  split; [done|]. split; [done|].
  induction Hreach as [ee | inp st Hreach IH].
  - vm_compute. split; discriminate.
  - destruct (loop_calibration sketch inp st) as (-> & _).
    destruct (control_calibration sketch inp st) as [-> _].
    destruct (button_low inp); [apply wrap_in_range|].
    apply IH; by apply reachable_invariants.
Qed.

(** In a run of the current sketch the amber expression does not overflow,
    for every stop distance from -32367 up to the start distance (all the
    stop distances a non-negative reading or the static value can give). *)
Lemma run_amber_expression_in_range st :
  reachable sketch st -> -32367 <= stopdistance st <= 400 ->
  Int16.in_range (AMBER_LEDS sketch * increment st) /\
  Int16.in_range (stopdistance st + AMBER_LEDS sketch * increment st) /\
  amber_cutoff sketch st = stopdistance st + AMBER_LEDS sketch * increment st.
Proof.
  intros Hreach Hstop.
  destruct (reachable_sketch_state st Hreach) as (_ & Hinc & _).
  pose proof (sketch_amber_cutoff_exact st Hinc Hstop) as Hcut.
  pose proof (sketch_increment_fresh st Hinc) as Hq.
  destruct (sketch_increment_exact _ Hstop) as (Hq1 & Hq2 & Hq3).
  rewrite Hq1 in Hq. change (AMBER_LEDS sketch) with 5.
  unfold Int16.in_range, Int16.min_int, Int16.max_int.
  split; [lia|]. split; [lia|]. exact Hcut.
Qed.

(** ** Calibration *)

(** C5, as stated, fails: the button stores the measured distance without any
    test.  From the calibrated state after [setup], a press at 0 cm leaves
    stopdistance = 0, and a press at 400 cm leaves stopdistance = startdistance
    and increment = 0. *)
Lemma button_breaks_calibration_invariant :
  let st := setup sketch (power_on sketch 0) in
  calibrated sketch st /\
  ~ calibrated sketch (loop sketch (press 0) st) /\
  ~ calibrated sketch (loop sketch (press 400) st) /\
  increment (loop sketch (press 400) st) = 0.
Proof.
  intros st.
  assert (H0 : stopdistance st = 10) by (vm_compute; reflexivity).
  assert (H1 : stopdistance (loop sketch (press 0) st) = 0)
    by (vm_compute; reflexivity).
  assert (H2 : stopdistance (loop sketch (press 400) st) = 400)
    by (vm_compute; reflexivity).
  unfold calibrated. rewrite H0, H1, H2.
  change (startdistance sketch) with 400.
  split; [lia|]. split; [lia|]. split; [lia|].
  vm_compute. reflexivity.
Qed.

(** C5, amended.  The invariant 0 < stopdistance < startdistance holds at
    power-on and after [setup] of the current sketch.  An iteration of [loop]
    changes stopdistance only when the button reads LOW; it then stores the
    measured distance unchanged and recomputes the increment from it without
    a guard, so the invariant holds afterwards exactly when the measured
    distance is strictly between 0 and startdistance. *)
Theorem calibration_invariant_after_loop cfg inp st :
  (forall ee, calibrated sketch (power_on sketch ee) /\
              calibrated sketch (setup sketch (power_on sketch ee))) /\
  stopdistance (loop cfg inp st) =
    (if button_low inp then Int16.wrap (ping_cm inp) else stopdistance st) /\
  increment (loop cfg inp st) =
    (if button_low inp
     then Int16.div (Int16.sub (startdistance cfg) (Int16.wrap (ping_cm inp)))
                    (Z.of_nat (NUM_LEDS cfg))
     else increment st) /\
  (calibrated cfg (loop cfg inp st) <->
     if button_low inp
     then 0 < Int16.wrap (ping_cm inp) < startdistance cfg
     else calibrated cfg st).
Proof.
  split.
  { intros ee. split; vm_compute; done. }
  destruct (loop_calibration cfg inp st) as (Hs & Hi & _).
  destruct (control_calibration cfg inp st) as [Hs' Hi'].
  rewrite Hs' in Hs. rewrite Hi' in Hi.
  split; [done|]. split; [done|].
  unfold calibrated. rewrite Hs. destruct (button_low inp); done.
Qed.

(** ** Loading the calibration at startup *)

(** What [setup] leaves: the EEPROM word is read only when the static
    stopdistance is 0 and then becomes stopdistance unchanged; a non-zero
    static value is kept.  The increment is derived from the resulting
    stopdistance. *)
Lemma setup_uses_loaded_calibration cfg (ee : Z) :
  let st := setup cfg (power_on cfg ee) in
  let st' := setup_v0_8 cfg (power_on cfg ee) in
  eeprom_read_word (power_on cfg ee) = ee /\
  stopdistance st =
    (if stopdistance_static cfg =? 0 then Int16.of_uint16 ee
     else stopdistance_static cfg) /\
  increment_fresh cfg st /\
  stopdistance st' = stopdistance st /\ increment st' = increment st /\
  stopdistance_ee st = ee /\ stopdistance_ee st' = ee.
Proof.
  intros st st'. subst st st'.
  destruct (setup_fields cfg (power_on cfg ee)) as (Hs & Hi & _).
  unfold increment_fresh. rewrite Hs, Hi.
  unfold setup, setup_v0_8, load_calibration. simpl.
  destruct (stopdistance_static cfg =? 0); done.
Qed.

(** The increment derived from a stop distance that leaves at least
    [NUM_LEDS] centimetres up to the start distance is positive. *)
Lemma derived_increment_positive (start stop : Z) (n : nat) :
  (0 < n)%nat -> Z.of_nat n <= start - stop <= Int16.max_int ->
  0 < Int16.div (Int16.sub start stop) (Z.of_nat n).
Proof.
  unfold Int16.max_int. intros Hn Hspan.
  unfold Int16.div, Int16.sub.
  rewrite (wrap_id (start - stop))
    by (unfold Int16.in_range, Int16.min_int, Int16.max_int; lia).
  rewrite Z.quot_div_nonneg by lia.
  assert (Hq : 0 < (start - stop) / Z.of_nat n) by (apply Z.div_str_pos; lia).
  assert (Hle : (start - stop) / Z.of_nat n <= start - stop).
  { apply Z.div_le_upper_bound; [lia | nia]. }
  rewrite wrap_id
    by (unfold Int16.in_range, Int16.min_int, Int16.max_int; lia).
  done.
Qed.

(** C6. The calibration load at startup yields what the storage holds (for a
    never-written word, the storage default): when the word is read it
    becomes the stop distance.  When the loaded value is 0, the stop distance
    after [setup] is the static default stopdistance (the word is only read
    when that default is itself 0), and the increment is the one derived from
    the static default, which is positive, not zero or negative, whenever at
    least [NUM_LEDS] centimetres lie between the static default and the start
    distance.  This holds for [setup] of the current sketch and for [setup]
    of the 0.8 and 0.6 sketches. *)
Theorem loaded_zero_leaves_static_default cfg (ee : Z) :
  let st := setup cfg (power_on cfg ee) in
  let st' := setup_v0_8 cfg (power_on cfg ee) in
  eeprom_read_word (power_on cfg ee) = ee /\
  (stopdistance_static cfg = 0 ->
     stopdistance st = Int16.of_uint16 ee /\
     stopdistance st' = Int16.of_uint16 ee) /\
  (Int16.of_uint16 ee = 0 ->
     stopdistance st = stopdistance_static cfg /\
     stopdistance st' = stopdistance_static cfg /\
     increment st =
       Int16.div (Int16.sub (startdistance cfg) (stopdistance_static cfg))
                 (Z.of_nat (NUM_LEDS cfg)) /\
     increment st' = increment st /\
     ((0 < NUM_LEDS cfg)%nat ->
      Z.of_nat (NUM_LEDS cfg) <= startdistance cfg - stopdistance_static cfg
        <= Int16.max_int ->
      0 < increment st /\ 0 < increment st')).
Proof.
  intros st st'.
  destruct (setup_uses_loaded_calibration cfg ee)
    as (Hread & Hstop & Hfresh & Hstop' & Hinc' & _).
  fold st in Hstop, Hfresh, Hstop', Hinc'. fold st' in Hstop', Hinc'.
  split; [done|]. split.
  - intros Hstatic. rewrite Hstop', Hstop, Hstatic. done.
  - intros Hzero.
    assert (Hs : stopdistance st = stopdistance_static cfg).
    { rewrite Hstop. destruct (Z.eqb_spec (stopdistance_static cfg) 0); congruence. }
    assert (Hi : increment st =
                 Int16.div (Int16.sub (startdistance cfg) (stopdistance_static cfg))
                           (Z.of_nat (NUM_LEDS cfg))).
    { unfold increment_fresh in Hfresh. by rewrite Hfresh, Hs. }
    split; [done|]. split; [congruence|]. split; [done|]. split; [done|].
    intros Hn Hspan. rewrite Hinc', Hi.
    split; by apply derived_increment_positive.
Qed.

(** A stored word 0 in the three sketches: the stop distance after [setup] is
    the static default (10, 10 and 0) and the increments are 13, 1 and 26. *)
Lemma zero_word_in_the_three_sketches :
  let st := setup sketch (power_on sketch 0) in
  let st8 := setup_v0_8 sketch_v0_8 (power_on sketch_v0_8 0) in
  let st6 := setup_v0_8 sketch_v0_6 (power_on sketch_v0_6 0) in
  (stopdistance st = 10 /\ increment st = 13) /\
  (stopdistance st8 = 10 /\ increment st8 = 1) /\
  (stopdistance st6 = 0 /\ increment st6 = 26).
Proof. vm_compute. done. Qed.

(** In the 0.6 sketch the static default is 0, so the word is read; with a
    stored word 0 the stop distance stays 0, which is outside the invariant
    0 < stopdistance of the data model, until the button sets it. *)
Lemma zero_word_v0_6_not_calibrated :
  let st := setup_v0_8 sketch_v0_6 (power_on sketch_v0_6 0) in
  stopdistance_static sketch_v0_6 = 0 /\
  stopdistance st = 0 /\ ~ calibrated sketch_v0_6 st.
Proof.
  intros st.
  assert (H0 : stopdistance st = 0) by (vm_compute; reflexivity).
  unfold calibrated. rewrite H0.
  split; [reflexivity|]. split; [reflexivity | lia].
Qed.

(** An erased EEPROM word (0xFFFF) is loaded as -1. *)
Lemma erased_word_is_loaded_as_minus_one :
  let st := setup_v0_8 sketch_v0_6 (power_on sketch_v0_6 65535) in
  stopdistance st = -1 /\ increment st = 26.
Proof. vm_compute. done. Qed.

(** ** Waking up *)

(** For distances in the non-negative [int] range, the sketch's
    [abs(distance - previous_distance)] is the absolute difference. *)
Lemma abs_sub_exact (d p : Z) :
  0 <= d <= Int16.max_int -> 0 <= p <= Int16.max_int ->
  Int16.abs (Int16.sub d p) = Z.abs (d - p).
Proof.
  unfold Int16.max_int. intros Hd Hp.
  unfold Int16.sub. rewrite wrap_id
    by (unfold Int16.in_range, Int16.min_int, Int16.max_int; lia).
  unfold Int16.abs. destruct (Z.ltb_spec 0 (d - p)); [lia|].
  unfold Int16.neg. rewrite wrap_id
    by (unfold Int16.in_range, Int16.min_int, Int16.max_int; lia).
  lia.
Qed.

Lemma control_wakes cfg inp st :
  DISTANCE_TOLERANCE cfg <=
    Int16.abs (Int16.sub (Int16.wrap (ping_cm inp)) (previous_distance st)) ->
  LED_sleep (control cfg inp st) = false /\
  timer (control cfg inp st) = Idle /\
  previous_distance (control cfg inp st) = Int16.wrap (ping_cm inp).
Proof.
  intros H. unfold control.
  set (st1 := set_distance (Int16.wrap (ping_cm inp))
                (timer_run cfg (millis_at_run inp) st)).
  destruct (check_button_fields cfg inp (check_tolerance cfg inp st1))
    as (_ & -> & -> & -> & _).
  apply (check_tolerance_moved cfg inp st1).
  subst st1. simpl.
  destruct (timer_run_fields cfg (millis_at_run inp) st) as (_ & _ & -> & _).
  done.
Qed.

(** C8. If the system is asleep and a cycle reads a distance whose absolute
    difference from the stored previous distance is at least the tolerance,
    then at the end of that same cycle the sleep flag is cleared, the timer is
    reset and the previous distance is the new sample; the display is computed
    in that cycle.  One sample suffices.  (Distances are centimetres in the
    non-negative [int] range.) *)
Theorem single_sample_wakes cfg inp st :
  LED_sleep st = true ->
  0 <= ping_cm inp <= Int16.max_int ->
  0 <= previous_distance st <= Int16.max_int ->
  DISTANCE_TOLERANCE cfg <= Z.abs (ping_cm inp - previous_distance st) ->
  let st' := loop cfg inp st in
  LED_sleep st' = false /\ timer st' = Idle /\
  previous_distance st' = ping_cm inp /\ distance st' = ping_cm inp /\
  st' = FastLED_show (display cfg (control cfg inp st)).
Proof.
  intros Hsleep Hd Hp Htol st'.
  assert (Hw : Int16.wrap (ping_cm inp) = ping_cm inp).
  { apply wrap_id. unfold Int16.in_range, Int16.min_int, Int16.max_int in *. lia. }
  destruct (control_wakes cfg inp st) as (Hs & Ht & Hprev).
  { rewrite Hw, abs_sub_exact by done. done. }
  destruct (loop_calibration cfg inp st) as (_ & _ & Hdist & Hs' & Ht' & Hp').
  subst st'. rewrite Hs', Ht', Hp', Hdist, Hs, Ht, Hprev, control_distance, Hw.
  repeat split. unfold loop. by rewrite Hs.
Qed.

Lemma single_sample_wakes_witness :
  let st := sleepmode_start sketch (setup sketch (power_on sketch 0)) in
  let inp := {| millis_at_run := 70000; ping_cm := 120;
                millis_at_start := 70000; button_low := false |} in
  LED_sleep st = true /\ LED_sleep (loop sketch inp st) = false.
Proof.
  intros st inp. split; [reflexivity|].
  refine (proj1 (single_sample_wakes sketch inp st _ _ _ _)).
  - reflexivity.
  - vm_compute. split; discriminate.
  - vm_compute. split; discriminate.
  - vm_compute. discriminate.
Defined.

(** ** The increment the display code reads *)

(** C9. In every iteration of [loop] of a run, the state on which the display
    code works has [increment = (startdistance - stopdistance)/NUM_LEDS] for
    its own stopdistance: when the button changed stopdistance in this
    iteration the increment was recomputed from the new value before the
    display code, and the buffers shown are the display of exactly that
    state. *)
Theorem display_reads_fresh_increment cfg inp st :
  reachable cfg st ->
  let st1 := control cfg inp st in
  increment_fresh cfg st1 /\
  (button_low inp = true ->
     stopdistance st1 = distance st1 /\
     increment st1 = Int16.div (Int16.sub (startdistance cfg) (distance st1))
                               (Z.of_nat (NUM_LEDS cfg))) /\
  (LED_sleep st1 = false -> loop cfg inp st = FastLED_show (display cfg st1)) /\
  increment_fresh cfg (loop cfg inp st).
Proof.
  intros Hreach st1.
  destruct (reachable_invariants cfg st Hreach) as [_ Hinc].
  assert (H1 : increment_fresh cfg st1) by (by apply control_increment_fresh).
  split; [done|]. split; [|split].
  - intros Hb. subst st1.
    destruct (control_calibration cfg inp st) as [-> ->].
    rewrite control_distance, Hb. done.
  - intros Hs. unfold loop. fold st1. by rewrite Hs.
  - unfold increment_fresh.
    destruct (loop_calibration cfg inp st) as (-> & -> & _). exact H1.
Qed.

Lemma display_reads_fresh_increment_witness :
  let st := setup sketch (power_on sketch 0) in
  increment (control sketch (press 100) st) = 10 /\
  stopdistance (control sketch (press 100) st) = 100.
Proof.
  intros st.
  destruct (display_reads_fresh_increment sketch (press 100) st
              (reach_setup sketch 0)) as (Hfresh & Hb & _).
  destruct (Hb eq_refl) as [Hs Hi].
  split; [rewrite Hi | rewrite Hs]; vm_compute; reflexivity.
Defined.

(** ** The two strips *)

Lemma loop_mirrors cfg inp st :
  buffers_ok cfg st -> leds_L st = leds_R st ->
  leds_L (loop cfg inp st) = leds_R (loop cfg inp st).
Proof.
  intros Hok Heq. pose proof Hok as [HL HR]. unfold loop.
  assert (Hc : leds_L (control cfg inp st) = leds_R (control cfg inp st)).
  { unfold control.
    set (st0 := timer_run cfg (millis_at_run inp) st).
    set (st1 := set_distance (Int16.wrap (ping_cm inp)) st0).
    destruct (check_button_fields cfg inp (check_tolerance cfg inp st1))
      as (_ & _ & _ & _ & -> & -> & _).
    destruct (check_tolerance_fields cfg inp st1) as (_ & _ & _ & -> & -> & _).
    subst st1 st0. simpl. unfold timer_run.
    destruct (timer_tick _ _ _) as [t [|]]; [|done].
    destruct (sleepmode_start_blanks cfg (set_timer t st)) as [-> ->]; done. }
  destruct (LED_sleep (control cfg inp st)); simpl; [done|].
  apply display_mirrors. by apply control_buffers_ok.
Qed.

(** C10. Every update of the buffers leaves the same colours in the left and
    the right buffer, at every index, for any configuration (mirrored or
    not): the display code in each of its three zones (in the current, the
    0.8 and the 0.6 sketch), the blanking of [sleepmode_start], and hence a
    whole iteration of [loop] that starts with equal buffers. *)
Theorem strips_identical cfg inp st :
  buffers_ok cfg st ->
  leds_L (display cfg st) = leds_R (display cfg st) /\
  leds_L (display_v0_8 cfg st) = leds_R (display_v0_8 cfg st) /\
  leds_L (display_v0_6 cfg st) = leds_R (display_v0_6 cfg st) /\
  leds_L (sleepmode_start cfg st) = leds_R (sleepmode_start cfg st) /\
  leds_L (setup cfg st) = leds_R (setup cfg st) /\
  (leds_L st = leds_R st -> leds_L (loop cfg inp st) = leds_R (loop cfg inp st)).
Proof.
  intros Hok. split; [by apply display_mirrors|].
  destruct Hok as [HL HR].
  split.
  { unfold display_v0_8. repeat case_match; by rewrite for_leds_L, for_leds_R. }
  split.
  { unfold display_v0_6. repeat case_match; by rewrite for_leds_L, for_leds_R. }
  split.
  { destruct (sleepmode_start_blanks cfg st) as [-> ->]; done. }
  split.
  { destruct (setup_buffers_ok cfg st) as [-> ->]; done. }
  intros Heq. apply loop_mirrors; [split|]; done.
Qed.

Lemma strips_identical_witness :
  let st := setup sketch (power_on sketch 0) in
  leds_L (display sketch (set_distance 100 st)) =
  leds_R (display sketch (set_distance 100 st)).
Proof.
  intros st.
  refine (proj1 (strips_identical sketch (press 100) (set_distance 100 st) _)).
  vm_compute. done.
Defined.

(** In a run, the buffers are equal in every state and in every frame pushed
    to the strips. *)
Lemma run_keeps_strips_equal cfg st :
  reachable cfg st ->
  leds_L st = leds_R st /\ Forall (fun frame => fst frame = snd frame) (shown st).
Proof.
  induction 1 as [ee | inp st Hreach [Heq Hall]].
  - assert (Hok : buffers_ok cfg (power_on cfg ee)).
    { simpl. by rewrite !length_replicate. }
    destruct (setup_buffers_ok cfg (power_on cfg ee) Hok) as [HL HR].
    split; [by rewrite HL, HR|].
    unfold setup. simpl.
    set (st0 := load_calibration cfg (set_LED_sleep false (power_on cfg ee))).
    assert (H0 : length (leds_L st0) = NUM_LEDS cfg /\
                 length (leds_R st0) = NUM_LEDS cfg).
    { subst st0. unfold load_calibration. case_match; simpl;
        by rewrite !length_replicate. }
    destruct H0 as [HL0 HR0].
    set (st1 := for_leds (NUM_LEDS cfg) (version_colour cfg) st0).
    destruct (for_leds_length (NUM_LEDS cfg) (version_colour cfg) st0)
      as [HL1 HR1]. fold st1 in HL1, HR1.
    constructor.
    + simpl.
      change (leds_L (for_leds (NUM_LEDS cfg) (fun _ => Black) (FastLED_show st1)) =
              leds_R (for_leds (NUM_LEDS cfg) (fun _ => Black) (FastLED_show st1))).
      rewrite for_leds_L by (change (length (leds_L st1) = NUM_LEDS cfg); congruence).
      rewrite for_leds_R by (change (length (leds_R st1) = NUM_LEDS cfg); congruence).
      done.
    + constructor; [|subst st1 st0; unfold load_calibration; case_match; done].
      change (leds_L st1 = leds_R st1). subst st1.
      by rewrite for_leds_L, for_leds_R.
  - destruct (reachable_invariants cfg st Hreach) as [Hok _].
    split; [by apply loop_mirrors|].
    unfold loop.
    assert (Hc : Forall (fun frame => fst frame = snd frame)
                        (shown (control cfg inp st))).
    { unfold control.
      set (st0 := timer_run cfg (millis_at_run inp) st).
      set (st1 := set_distance (Int16.wrap (ping_cm inp)) st0).
      destruct (check_button_fields cfg inp (check_tolerance cfg inp st1))
        as (_ & _ & _ & _ & _ & _ & ->).
      destruct (check_tolerance_fields cfg inp st1) as (_ & _ & _ & _ & _ & ->).
      subst st1 st0. simpl. unfold timer_run.
      destruct (timer_tick _ _ _) as [t [|]]; [|done].
      unfold sleepmode_start. simpl. constructor; [|done]. simpl.
      destruct (sleepmode_start_blanks cfg (set_timer t st) Hok) as [HL HR].
      unfold sleepmode_start in HL, HR. simpl in HL, HR. by rewrite HL, HR. }
    destruct (LED_sleep (control cfg inp st)); simpl; [done|].
    constructor; [|].
    + simpl. apply display_mirrors. by apply control_buffers_ok.
    + unfold display. repeat case_match; done.
Qed.

(** ** The idle timer *)

Lemma timer_calls_expired duration calls :
  timer_calls duration calls Expired = (Expired, 0%nat).
Proof.
  induction calls as [|[now|now] rest IH]; simpl; [done| |done].
  by rewrite IH.
Qed.

Lemma timer_calls_running duration calls t0 :
  let r := timer_calls duration calls (Running t0) in
  (snd r <= 1)%nat /\
  ((exists now, CallTick now ∈ calls /\ duration <= now - t0) -> snd r = 1%nat) /\
  (snd r = 1%nat -> fst r = Expired) /\
  (snd r = 0%nat -> fst r = Running t0).
Proof.
  induction calls as [|[now|now] rest IH]; simpl.
  - split; [lia|]. split; [|done].
    intros (now & Hin & _). by apply elem_of_nil in Hin.
  - destruct (Z.leb_spec duration (now - t0)) as [Hexp|Hrun].
    + rewrite timer_calls_expired. simpl. done.
    + destruct (timer_calls duration rest (Running t0)) as [t2 n] eqn:E.
      simpl in *. destruct IH as (IH1 & IH2 & IH3 & IH4).
      split; [done|]. split; [|done].
      intros (now' & Hin & Hle). apply IH2.
      apply elem_of_cons in Hin as [[= ->]|Hin]; [lia|]. by exists now'.
  - destruct IH as (IH1 & IH2 & IH3 & IH4).
    split; [done|]. split; [|done].
    intros (now' & Hin & Hle). apply IH2.
    apply elem_of_cons in Hin as [[=]|Hin]. by exists now'.
Qed.

(** C7. From [start()] on and without a [reset()], whatever ticks and further
    [start()] calls follow, the callback fires at most once; it fires exactly
    once when a tick comes at which the configured duration has elapsed; once
    it has fired the timer is in its handled state, where no tick or
    [start()] fires or changes anything, until [reset()] makes it idle
    again. *)
Theorem idle_timer_fires_once (duration t0 : Z) (calls : list TimerCall) :
  let r := timer_calls duration calls (timer_start t0 Idle) in
  (snd r <= 1)%nat /\
  ((exists now, CallTick now ∈ calls /\ duration <= now - t0) -> snd r = 1%nat) /\
  (snd r = 1%nat -> fst r = Expired) /\
  (forall calls', timer_calls duration calls' Expired = (Expired, 0%nat)) /\
  timer_reset (fst r) = Idle.
Proof.
  simpl. destruct (timer_calls_running duration calls t0) as (H1 & H2 & H3 & _).
  split; [done|]. split; [done|]. split; [done|].
  split; [|done]. intros calls'. apply timer_calls_expired.
Qed.

(** In the sketch the handler itself resets the timer: after the expiry the
    system is asleep with an idle timer, and further calls of [timer.run()]
    do nothing.  One frame (the blanked strips) is pushed per firing. *)
Lemma run_all_idle cfg nows st :
  timer st = Idle -> run_all cfg nows st = st.
Proof.
  revert st. induction nows as [|now rest IH]; intros st Ht; [done|].
  unfold run_all in *. simpl. unfold timer_run at 2. rewrite Ht. simpl.
  assert (Hst : set_timer Idle st = st) by (destruct st; simpl in *; by subst).
  rewrite Hst. by apply IH.
Qed.

Lemma timer_run_running cfg now st t0 :
  timer st = Running t0 ->
  (LED_TIMEOUT cfg <= now - t0 ->
     timer_run cfg now st = sleepmode_start cfg (set_timer Expired st)) /\
  (now - t0 < LED_TIMEOUT cfg -> timer_run cfg now st = st).
Proof.
  intros Ht. unfold timer_run, timer_tick. rewrite Ht. split; intros H.
  - by rewrite (proj2 (Z.leb_le _ _) H).
  - rewrite (proj2 (Z.leb_gt _ _) H). destruct st; simpl in *; by subst.
Qed.

Lemma expiry_enters_sleep_once cfg nows st t0 :
  timer st = Running t0 ->
  let st' := run_all cfg nows st in
  (length (shown st') <= S (length (shown st)))%nat /\
  ((exists now, now ∈ nows /\ LED_TIMEOUT cfg <= now - t0) ->
     length (shown st') = S (length (shown st)) /\
     LED_sleep st' = true /\ timer st' = Idle).
Proof.
  revert st. induction nows as [|now rest IH]; intros st Ht; simpl.
  - split; [lia|]. intros (now & Hin & _). by apply elem_of_nil in Hin.
  - change (run_all cfg (now :: rest) st)
      with (run_all cfg rest (timer_run cfg now st)).
    destruct (timer_run_running cfg now st t0 Ht) as [Hfire Hkeep].
    destruct (Z.le_gt_cases (LED_TIMEOUT cfg) (now - t0)) as [Hexp|Hrun].
    + rewrite (Hfire Hexp). rewrite run_all_idle by done. simpl. done.
    + rewrite (Hkeep Hrun). destruct (IH st Ht) as [IH1 IH2].
      split; [done|]. intros (now' & Hin & Hle). apply IH2.
      apply elem_of_cons in Hin as [->|Hin]; [lia|]. by exists now'.
Qed.

(** In a run the timer is never left in its handled state, and while the
    system is asleep the timer is idle: only the else branch of the tolerance
    check, which resets the timer, lets it be started again. *)
Lemma reachable_timer cfg st :
  reachable cfg st ->
  timer st <> Expired /\ (LED_sleep st = true -> timer st = Idle).
Proof.
  induction 1 as [ee | inp st Hreach [Hne Hidle]].
  - destruct (setup_fields cfg (power_on cfg ee)) as (_ & _ & -> & ->). done.
  - destruct (loop_calibration cfg inp st) as (_ & _ & _ & -> & -> & _).
    unfold control.
    set (st0 := timer_run cfg (millis_at_run inp) st).
    assert (H0 : timer st0 <> Expired /\ (LED_sleep st0 = true -> timer st0 = Idle)).
    { subst st0. unfold timer_run, timer_tick.
      destruct (timer st) as [|since|] eqn:Et; [| |done].
      - simpl. split; [discriminate | intros _; reflexivity].
      - destruct (LED_TIMEOUT cfg <=? millis_at_run inp - since); simpl; [done|].
        split; [done|]. intros Hs. specialize (Hidle Hs). done. }
    set (st1 := set_distance (Int16.wrap (ping_cm inp)) st0).
    destruct (check_button_fields cfg inp (check_tolerance cfg inp st1))
      as (_ & -> & -> & _).
    unfold check_tolerance. destruct H0 as [H0 H0'].
    case_match; [|done].
    change (timer st1) with (timer st0).
    change (LED_sleep st1) with (LED_sleep st0).
    destruct (negb (timer_isRunning (timer st0)) && negb (LED_sleep st0))
      eqn:Hstart; [|done].
    apply andb_true_iff in Hstart as [_ Hawake].
    apply negb_true_iff in Hawake.
    simpl. destruct (timer st0); [|done|done].
    simpl. split; [done|]. intros Hs. congruence.
Qed.

(** * Further properties of the sketches *)

(** ** The display code *)

Lemma fmap_seq_const_on (f : nat -> CRGB) (c : CRGB) (a n : nat) :
  (forall i : nat, (a <= i < a + n)%nat -> f i = c) ->
  f <$> seq a n = replicate n c.
Proof.
  revert a. induction n as [|n IH]; intros a H; simpl; [done|].
  rewrite (H a) by lia. f_equal. apply IH. intros i Hi. apply H. lia.
Qed.

Lemma threshold_0 st :
  Int16.in_range (stopdistance st) -> threshold st 0 = stopdistance st.
Proof.
  intros H. unfold threshold, Int16.add, Int16.mul.
  rewrite Z.mul_0_r. change (Int16.wrap 0) with 0.
  rewrite Z.add_0_r. by apply wrap_id.
Qed.

(** The increment of a layout in range is the exact quotient. *)
Lemma fresh_increment_bounds cfg st :
  increment_fresh cfg st -> layout_in_range cfg st ->
  stopdistance st <= startdistance cfg ->
  0 <= increment st /\
  Z.of_nat (NUM_LEDS cfg) * increment st <= startdistance cfg - stopdistance st /\
  startdistance cfg - stopdistance st <
    Z.of_nat (NUM_LEDS cfg) * (increment st + 1).
Proof.
  unfold increment_fresh, layout_in_range, Int16.in_range, Int16.min_int,
    Int16.max_int.
  intros Hinc (Hn0 & Hn & Hstop & Hstart & Hsub) Hle.
  set (n := Z.of_nat (NUM_LEDS cfg)) in *.
  set (span := startdistance cfg - stopdistance st) in *.
  assert (Hq : 0 <= span ÷ n /\ n * (span ÷ n) <= span /\
               span < n * (span ÷ n + 1)).
  { rewrite Z.quot_div_nonneg by lia. split; [apply Z.div_pos; lia|].
    pose proof (Z.mul_div_le span n ltac:(lia)).
    pose proof (Z.mul_succ_div_gt span n ltac:(lia)). lia. }
  assert (Hinc' : increment st = span ÷ n).
  { rewrite Hinc. unfold Int16.div, Int16.sub. fold span.
    rewrite (wrap_id span)
      by (unfold Int16.in_range, Int16.min_int, Int16.max_int; lia).
    apply wrap_id. unfold Int16.in_range, Int16.min_int, Int16.max_int. nia. }
  rewrite Hinc'. done.
Qed.

Lemma layout_threshold cfg st (i : nat) :
  increment_fresh cfg st -> layout_in_range cfg st ->
  stopdistance st <= startdistance cfg -> (i < NUM_LEDS cfg)%nat ->
  threshold st i = stopdistance st + increment st * Z.of_nat i.
Proof.
  intros Hinc (Hn0 & Hn & Hstop & Hstart & Hsub) Hle Hi.
  by destruct (threshold_exact cfg st i) as [H _].
Qed.

Lemma layout_amber_cutoff cfg st :
  increment_fresh cfg st -> layout_in_range cfg st ->
  stopdistance st <= startdistance cfg ->
  0 <= AMBER_LEDS cfg <= Z.of_nat (NUM_LEDS cfg) ->
  amber_cutoff cfg st = stopdistance st + AMBER_LEDS cfg * increment st.
Proof.
  intros Hinc Hlay Hle Ha.
  destruct (fresh_increment_bounds cfg st Hinc Hlay Hle) as (Hq0 & Hqn & _).
  destruct Hlay as (Hn0 & Hn & Hstop & Hstart & Hsub).
  unfold Int16.in_range, Int16.min_int, Int16.max_int in *.
  assert (Hp : 0 <= AMBER_LEDS cfg * increment st <=
               startdistance cfg - stopdistance st) by nia.
  unfold amber_cutoff, Int16.add, Int16.mul.
  rewrite (wrap_id (AMBER_LEDS cfg * increment st))
    by (unfold Int16.in_range, Int16.min_int, Int16.max_int; lia).
  apply wrap_id. unfold Int16.in_range, Int16.min_int, Int16.max_int. lia.
Qed.

(** X1. Beyond [startdistance] the display code of the current sketch leaves
    both strips dark, whatever the stop distance and the increment are. *)
Theorem beyond_start_all_black cfg st :
  buffers_ok cfg st -> startdistance cfg < distance st ->
  leds_L (display cfg st) = replicate (NUM_LEDS cfg) Black /\
  leds_R (display cfg st) = replicate (NUM_LEDS cfg) Black /\
  lit_count (leds_L (display cfg st)) = 0%nat.
Proof.
  intros Hok Hfar.
  destruct (display_out_of_range cfg st Hok Hfar) as [HL HR].
  rewrite HL, HR. split; [done|]. split; [done|].
  generalize (NUM_LEDS cfg). intros n. induction n as [|n IH]; [done|].
  simpl. by rewrite lit_count_cons.
Qed.

Lemma beyond_start_all_black_witness :
  let st := set_distance 401 (setup sketch (power_on sketch 0)) in
  leds_L (display sketch st) = replicate 30 Black.
Proof.
  intros st.
  refine (proj1 (beyond_start_all_black sketch st _ _)).
  - vm_compute. done.
  - vm_compute. reflexivity.
Defined.

(** X2. Between stop and start distance LED 0 is always lit: the strips are
    never dark inside the graduated zone. *)
Theorem graduated_zone_first_led_lit cfg st :
  buffers_ok cfg st -> (0 < NUM_LEDS cfg)%nat ->
  Int16.in_range (stopdistance st) ->
  stopdistance st < distance st -> distance st <= startdistance cfg ->
  lit_at (leds_L (display cfg st)) 0 /\ lit_at (leds_R (display cfg st)) 0 /\
  (1 <= lit_count (leds_L (display cfg st)))%nat.
Proof.
  intros Hok Hn Hrange Hstop Hstart.
  destruct (display_graduated cfg st Hok Hstop Hstart) as [-> ->].
  assert (H0 : lit_at (graduated_colour cfg st <$> seq 0 (NUM_LEDS cfg)) 0).
  { apply lit_at_fmap_seq. split; [done|].
    apply graduated_colour_lit. by rewrite threshold_0. }
  split; [done|]. split; [done|].
  destruct (NUM_LEDS cfg) as [|n]; [lia|].
  simpl. rewrite lit_count_cons.
  apply lit_at_fmap_seq in H0 as [_ ->]. lia.
Qed.

Lemma graduated_zone_first_led_lit_witness :
  let st := set_distance 11 (setup sketch (power_on sketch 0)) in
  lit_at (leds_L (display sketch st)) 0.
Proof.
  intros st.
  refine (proj1 (graduated_zone_first_led_lit sketch st _ _ _ _ _)).
  - vm_compute. done.
  - vm_compute. lia.
  - vm_compute. split; discriminate.
  - vm_compute. reflexivity.
  - vm_compute. discriminate.
Defined.

(** X3. When the increment is 0 (fewer centimetres between stop and start
    than LEDs), all thresholds coincide with the stop distance: in the whole
    graduated zone every LED of both strips is green, none orange. *)
Theorem zero_increment_all_green cfg st :
  buffers_ok cfg st -> Int16.in_range (stopdistance st) ->
  increment st = 0 ->
  stopdistance st < distance st -> distance st <= startdistance cfg ->
  leds_L (display cfg st) = replicate (NUM_LEDS cfg) Green /\
  leds_R (display cfg st) = replicate (NUM_LEDS cfg) Green.
Proof.
  intros Hok Hrange Hinc Hstop Hstart.
  destruct (display_graduated cfg st Hok Hstop Hstart) as [-> ->].
  assert (H : graduated_colour cfg st <$> seq 0 (NUM_LEDS cfg) =
              replicate (NUM_LEDS cfg) Green).
  { apply fmap_seq_const_on. intros i _.
    unfold graduated_colour, threshold, amber_cutoff, Int16.add, Int16.mul.
    rewrite Hinc, Z.mul_0_l, Z.mul_0_r. change (Int16.wrap 0) with 0.
    rewrite Z.add_0_r, wrap_id by done.
    rewrite (proj2 (Z.ltb_lt _ _) Hstop), (proj2 (Z.leb_gt _ _) Hstop). done. }
  by rewrite H.
Qed.

Lemma zero_increment_all_green_witness :
  let st := set_distance 390
              (loop sketch (press 380) (setup sketch (power_on sketch 0))) in
  increment st = 0 /\ leds_L (display sketch st) = replicate 30 Green.
Proof.
  intros st. split; [vm_compute; reflexivity|].
  refine (proj1 (zero_increment_all_green sketch st _ _ _ _ _)).
  - vm_compute. done.
  - vm_compute. split; discriminate.
  - vm_compute. reflexivity.
  - vm_compute. reflexivity.
  - vm_compute. discriminate.
Defined.

(** The lit LEDs of the graduated zone, for a layout in range. *)
Lemma graduated_lit_at cfg st (i : nat) :
  buffers_ok cfg st -> increment_fresh cfg st -> layout_in_range cfg st ->
  stopdistance st < distance st -> distance st <= startdistance cfg ->
  lit_at (leds_L (display cfg st)) i <->
  (i < NUM_LEDS cfg)%nat /\
  stopdistance st + increment st * Z.of_nat i < distance st.
Proof.
  intros Hok Hinc Hlay Hstop Hstart.
  destruct (display_graduated cfg st Hok Hstop Hstart) as [-> _].
  rewrite lit_at_fmap_seq, graduated_colour_lit.
  split; intros [Hi Hlit]; (split; [done|]).
  - by rewrite <- (layout_threshold cfg st i) by (done || lia).
  - by rewrite (layout_threshold cfg st i) by (done || lia).
Qed.

Lemma graduated_prefix_count cfg st (i : nat) :
  buffers_ok cfg st -> increment_fresh cfg st -> layout_in_range cfg st ->
  stopdistance st < distance st -> distance st <= startdistance cfg ->
  lit_at (leds_L (display cfg st)) i <->
  (i < lit_count (leds_L (display cfg st)))%nat.
Proof.
  intros Hok Hinc Hlay Hstop Hstart.
  apply contiguous_prefix_count.
  destruct Hlay as (Hn0 & Hn & Hs & Hst & Hsub).
  by destruct (graduated_contiguous cfg st) as [H _].
Qed.

(** X4. In the current sketch, whenever the graduated zone shows orange, at
    most [AMBER_LEDS] LEDs are lit: the orange bar never gets longer than the
    configured number of amber LEDs. *)
Theorem orange_bar_at_most_AMBER_LEDS cfg st :
  buffers_ok cfg st -> increment_fresh cfg st -> layout_in_range cfg st ->
  0 <= AMBER_LEDS cfg <= Z.of_nat (NUM_LEDS cfg) ->
  stopdistance st < distance st -> distance st <= startdistance cfg ->
  distance st <= amber_cutoff cfg st ->
  Z.of_nat (lit_count (leds_L (display cfg st))) <= AMBER_LEDS cfg.
Proof.
  intros Hok Hinc Hlay Ha Hstop Hstart Horange.
  rewrite layout_amber_cutoff in Horange by (done || lia).
  destruct (fresh_increment_bounds cfg st Hinc Hlay ltac:(lia)) as (Hq0 & _).
  destruct (lit_count (leds_L (display cfg st))) as [|n] eqn:En; [lia|].
  assert (Hlit : lit_at (leds_L (display cfg st)) n).
  { apply graduated_prefix_count; try done. lia. }
  apply graduated_lit_at in Hlit as [Hn Hlit]; try done.
  nia.
Qed.

Lemma orange_bar_at_most_AMBER_LEDS_witness :
  let st := set_distance 75 (setup sketch (power_on sketch 0)) in
  Z.of_nat (lit_count (leds_L (display sketch st))) <= 5.
Proof.
  intros st.
  refine (orange_bar_at_most_AMBER_LEDS sketch st _ _ _ _ _ _ _).
  - vm_compute. done.
  - vm_compute. reflexivity.
  - vm_compute. repeat split; try discriminate; lia.
  - vm_compute. split; discriminate.
  - vm_compute. reflexivity.
  - vm_compute. discriminate.
  - vm_compute. discriminate.
Defined.

Lemma layout_amber_bound_v0_8 cfg st :
  increment_fresh cfg st -> layout_in_range cfg st ->
  stopdistance st <= startdistance cfg ->
  0 <= AMBER_LEDS cfg -> AMBER_LEDS cfg + 1 <= Z.of_nat (NUM_LEDS cfg) ->
  amber_bound_v0_8 cfg st = stopdistance st + (AMBER_LEDS cfg + 1) * increment st.
Proof.
  intros Hinc Hlay Hle Ha0 Ha.
  destruct (fresh_increment_bounds cfg st Hinc Hlay Hle) as (Hq0 & Hqn & _).
  destruct Hlay as (Hn0 & Hn & Hstop & Hstart & Hsub).
  unfold Int16.in_range, Int16.min_int, Int16.max_int in *.
  assert (Hp : 0 <= (AMBER_LEDS cfg + 1) * increment st <=
               startdistance cfg - stopdistance st) by nia.
  unfold amber_bound_v0_8, Int16.add, Int16.mul.
  rewrite (wrap_id (AMBER_LEDS cfg + 1))
    by (unfold Int16.in_range, Int16.min_int, Int16.max_int; lia).
  rewrite (wrap_id ((AMBER_LEDS cfg + 1) * increment st))
    by (unfold Int16.in_range, Int16.min_int, Int16.max_int; lia).
  apply wrap_id. unfold Int16.in_range, Int16.min_int, Int16.max_int. lia.
Qed.

(** X5. In the 0.8 and 0.6 sketches the orange bar can be one LED longer:
    whenever their graduated zone shows orange, at most [AMBER_LEDS + 1] LEDs
    are lit. *)
Theorem orange_bar_v0_8_at_most_one_more cfg st :
  buffers_ok cfg st -> increment_fresh cfg st -> layout_in_range cfg st ->
  0 <= AMBER_LEDS cfg -> AMBER_LEDS cfg + 1 <= Z.of_nat (NUM_LEDS cfg) ->
  stopdistance st < distance st -> distance st <= startdistance cfg ->
  distance st < amber_bound_v0_8 cfg st ->
  Z.of_nat (lit_count (leds_L (display_v0_8 cfg st))) <= AMBER_LEDS cfg + 1.
Proof.
  intros Hok Hinc Hlay Ha0 Ha Hstop Hstart Horange.
  rewrite layout_amber_bound_v0_8 in Horange by (done || lia).
  destruct (fresh_increment_bounds cfg st Hinc Hlay ltac:(lia)) as (Hq0 & _).
  assert (Hcount : lit_count (leds_L (display_v0_8 cfg st)) =
                   lit_count (leds_L (display cfg st))).
  { destruct Hlay as (Hn0 & Hn & Hs & Hst & Hsub).
    by destruct (graduated_contiguous cfg st) as (_ & _ & H). }
  rewrite Hcount.
  destruct (lit_count (leds_L (display cfg st))) as [|n] eqn:En; [lia|].
  assert (Hlit : lit_at (leds_L (display cfg st)) n).
  { apply graduated_prefix_count; try done. lia. }
  apply graduated_lit_at in Hlit as [Hn Hlit]; try done.
  nia.
Qed.

Lemma orange_bar_v0_8_at_most_one_more_witness :
  let st := set_distance 105 (setup_v0_8 sketch_v0_6 (power_on sketch_v0_6 0)) in
  lit_count (leds_L (display_v0_8 sketch_v0_6 st)) = 5%nat /\
  Z.of_nat (lit_count (leds_L (display_v0_8 sketch_v0_6 st))) <= 4 + 1.
Proof.
  intros st. split; [vm_compute; reflexivity|].
  refine (orange_bar_v0_8_at_most_one_more sketch_v0_6 st _ _ _ _ _ _ _ _).
  - vm_compute. done.
  - vm_compute. reflexivity.
  - vm_compute. repeat split; try discriminate; lia.
  - vm_compute. discriminate.
  - vm_compute. discriminate.
  - vm_compute. reflexivity.
  - vm_compute. discriminate.
  - vm_compute. reflexivity.
Defined.

(** X6. The number of lit LEDs in the graduated zone, for a positive
    increment: the LED count, or one LED per started increment between the
    stop distance and the car, whichever is smaller. *)
Theorem graduated_lit_count cfg st :
  buffers_ok cfg st -> increment_fresh cfg st -> layout_in_range cfg st ->
  0 < increment st ->
  stopdistance st < distance st -> distance st <= startdistance cfg ->
  Z.of_nat (lit_count (leds_L (display cfg st))) =
  Z.min (Z.of_nat (NUM_LEDS cfg))
        ((distance st - stopdistance st - 1) / increment st + 1).
Proof.
  intros Hok Hinc Hlay Hpos Hstop Hstart.
  set (k := (distance st - stopdistance st - 1) / increment st + 1).
  assert (Hk : forall i : Z,
            stopdistance st + increment st * i < distance st <-> i < k).
  { intros i. subst k.
    pose proof (Z.div_mod (distance st - stopdistance st - 1) (increment st)
                  ltac:(lia)) as Hdm.
    pose proof (Z.mod_pos_bound (distance st - stopdistance st - 1)
                  (increment st) Hpos) as Hm.
    split; intros H; nia. }
  set (n := lit_count (leds_L (display cfg st))).
  assert (Hchar : forall i : nat,
            (i < n)%nat <-> (i < NUM_LEDS cfg)%nat /\ Z.of_nat i < k).
  { intros i. unfold n. rewrite <- graduated_prefix_count by done.
    rewrite graduated_lit_at by done. by rewrite Hk. }
  assert (Hupper : ~ ((n < NUM_LEDS cfg)%nat /\ Z.of_nat n < k)).
  { intros H. apply Hchar in H. lia. }
  destruct n as [|m] eqn:En.
  - assert (H0 : 0 < k) by (apply Hk; lia).
    destruct Hlay as (Hn0 & _). lia.
  - destruct (proj1 (Hchar m) ltac:(lia)) as [Hm1 Hm2]. lia.
Qed.

Lemma graduated_lit_count_witness :
  let st := set_distance 100 (setup sketch (power_on sketch 0)) in
  Z.of_nat (lit_count (leds_L (display sketch st))) =
  Z.min 30 ((100 - 10 - 1) / 13 + 1).
Proof.
  intros st.
  refine (graduated_lit_count sketch st _ _ _ _ _ _).
  - vm_compute. done.
  - vm_compute. reflexivity.
  - vm_compute. repeat split; try discriminate; lia.
  - vm_compute. reflexivity.
  - vm_compute. reflexivity.
  - vm_compute. discriminate.
Defined.

(** X7. At the far end of the range (distance = startdistance, beyond the
    stop distance) every LED of both strips is lit and green, when fewer
    amber LEDs than LEDs are configured. *)
Theorem full_green_bar_at_start cfg st :
  buffers_ok cfg st -> increment_fresh cfg st -> layout_in_range cfg st ->
  0 <= AMBER_LEDS cfg < Z.of_nat (NUM_LEDS cfg) ->
  stopdistance st < startdistance cfg -> distance st = startdistance cfg ->
  leds_L (display cfg st) = replicate (NUM_LEDS cfg) Green /\
  leds_R (display cfg st) = replicate (NUM_LEDS cfg) Green.
Proof.
  intros Hok Hinc Hlay Ha Hstop Hd.
  destruct (display_graduated cfg st Hok ltac:(lia) ltac:(lia)) as [-> ->].
  destruct (fresh_increment_bounds cfg st Hinc Hlay ltac:(lia))
    as (Hq0 & Hqn & _).
  assert (H : graduated_colour cfg st <$> seq 0 (NUM_LEDS cfg) =
              replicate (NUM_LEDS cfg) Green).
  { apply fmap_seq_const_on. intros i Hi. unfold graduated_colour.
    rewrite (layout_threshold cfg st i) by (done || lia).
    rewrite layout_amber_cutoff by (done || lia).
    assert (H1 : stopdistance st + increment st * Z.of_nat i < distance st) by nia.
    assert (H2 : stopdistance st + AMBER_LEDS cfg * increment st < distance st)
      by nia.
    rewrite (proj2 (Z.ltb_lt _ _) H1), (proj2 (Z.leb_gt _ _) H2). done. }
  by rewrite H.
Qed.

Lemma full_green_bar_at_start_witness :
  let st := set_distance 400 (setup sketch (power_on sketch 0)) in
  leds_L (display sketch st) = replicate 30 Green.
Proof.
  intros st.
  refine (proj1 (full_green_bar_at_start sketch st _ _ _ _ _ _)).
  - vm_compute. done.
  - vm_compute. reflexivity.
  - vm_compute. repeat split; try discriminate; lia.
  - vm_compute. split; [discriminate | reflexivity].
  - vm_compute. reflexivity.
  - vm_compute. reflexivity.
Defined.

(** X8. The display code overwrites every LED: the buffers it leaves depend
    only on the distance, the stop distance and the increment, not on what
    the buffers held before. *)
Theorem display_overwrites_buffers cfg st st' :
  buffers_ok cfg st -> buffers_ok cfg st' ->
  distance st = distance st' -> stopdistance st = stopdistance st' ->
  increment st = increment st' ->
  leds_L (display cfg st) = leds_L (display cfg st') /\
  leds_R (display cfg st) = leds_R (display cfg st').
Proof.
  intros [HL HR] [HL' HR'] Hd Hs Hi.
  assert (Hg : forall i, graduated_colour cfg st i = graduated_colour cfg st' i).
  { intros i. unfold graduated_colour, threshold, amber_cutoff.
    by rewrite Hd, Hs, Hi. }
  unfold display. rewrite <- Hd, <- Hs.
  repeat case_match; rewrite !for_leds_L, !for_leds_R by done;
    try done; split; apply list_fmap_ext; intros; apply Hg.
Qed.

Lemma display_overwrites_buffers_witness :
  let st := set_distance 100 (setup sketch (power_on sketch 0)) in
  let st' := set_leds (replicate 30 White) (replicate 30 Red) st in
  leds_L (display sketch st) = leds_L (display sketch st').
Proof.
  intros st st'.
  refine (proj1 (display_overwrites_buffers sketch st st' _ _ _ _ _)).
  - vm_compute. done.
  - vm_compute. done.
  - reflexivity.
  - reflexivity.
  - reflexivity.
Defined.

(** X9. The 0.6 sketch has no exception for a zero reading: for every
    distance up to the stop distance (0 included) all LEDs of both strips
    are red. *)
Theorem stop_zone_v0_6_all_red cfg st :
  buffers_ok cfg st ->
  distance st <= startdistance cfg -> distance st <= stopdistance st ->
  leds_L (display_v0_6 cfg st) = replicate (NUM_LEDS cfg) Red /\
  leds_R (display_v0_6 cfg st) = replicate (NUM_LEDS cfg) Red.
Proof.
  intros [HL HR] Hstart Hstop. unfold display_v0_6.
  rewrite (proj2 (Z.ltb_ge _ _) Hstart), (proj2 (Z.leb_le _ _) Hstop).
  rewrite for_leds_L, for_leds_R by done. by rewrite fmap_const_seq.
Qed.

Lemma stop_zone_v0_6_all_red_witness :
  let st := set_distance 0 (setup_v0_8 sketch_v0_6 (power_on sketch_v0_6 7)) in
  leds_L (display_v0_6 sketch_v0_6 st) = replicate 15 Red.
Proof.
  intros st.
  refine (proj1 (stop_zone_v0_6_all_red sketch_v0_6 st _ _ _)).
  - vm_compute. done.
  - vm_compute. discriminate.
  - vm_compute. discriminate.
Defined.

Lemma fold_assign_ext (f g : nat -> CRGB) (n a : nat)
      (bufs : list CRGB * list CRGB) :
  (forall i : nat, (a <= i < a + n)%nat -> f i = g i) ->
  fold_left (fun bufs i => assign_both (f i) i bufs) (seq a n) bufs =
  fold_left (fun bufs i => assign_both (g i) i bufs) (seq a n) bufs.
Proof.
  revert a bufs. induction n as [|n IH]; intros a bufs H; simpl; [done|].
  rewrite (H a) by lia. apply IH. intros i Hi. apply H. lia.
Qed.

Lemma for_leds_ext (n : nat) (f g : nat -> CRGB) st :
  (forall i : nat, (i < n)%nat -> f i = g i) ->
  for_leds n f st = for_leds n g st.
Proof.
  intros H. unfold for_leds.
  rewrite (fold_assign_ext f g n 0) by (intros i Hi; apply H; lia). done.
Qed.

(** X10. With the constants of the 0.8 sketch, a non-negative stop distance
    and a non-negative reading, an iteration of the 0.8 [loop] leaves exactly
    the state the current [loop] leaves: the rewritten amber test changes
    nothing for that layout. *)
Theorem loop_v0_8_same_as_current inp st :
  increment_fresh sketch_v0_8 st -> 0 <= stopdistance st ->
  0 <= ping_cm inp <= Int16.max_int ->
  loop_v0_8 sketch_v0_8 inp st = loop sketch_v0_8 inp st.
Proof.
  intros Hinc Hstop Hcm. unfold loop_v0_8, loop.
  set (st1 := control sketch_v0_8 inp st).
  destruct (LED_sleep st1); simpl; [done|]. f_equal.
  assert (Hinc1 : increment_fresh sketch_v0_8 st1)
    by (by apply control_increment_fresh).
  assert (Hstop1 : 0 <= stopdistance st1).
  { subst st1. destruct (control_calibration sketch_v0_8 inp st) as [-> _].
    destruct (button_low inp); [|done].
    rewrite wrap_id; [lia|].
    unfold Int16.in_range, Int16.min_int, Int16.max_int in *. lia. }
  unfold display_v0_8, display.
  destruct (startdistance sketch_v0_8 <? distance st1) eqn:Hfar; [done|].
  destruct (distance st1 <=? stopdistance st1) eqn:Hnear; [done|].
  apply Z.ltb_ge in Hfar. apply Z.leb_gt in Hnear.
  apply for_leds_ext. intros i _.
  unfold graduated_colour_v0_8, graduated_colour.
  by rewrite v0_8_amber_test_same.
Qed.

Lemma loop_v0_8_same_as_current_witness :
  let st := setup_v0_8 sketch_v0_8 (power_on sketch_v0_8 0) in
  let inp := {| millis_at_run := 0; ping_cm := 14;
                millis_at_start := 0; button_low := false |} in
  loop_v0_8 sketch_v0_8 inp st = loop sketch_v0_8 inp st.
Proof.
  intros st inp.
  refine (loop_v0_8_same_as_current inp st _ _ _).
  - vm_compute. reflexivity.
  - vm_compute. discriminate.
  - vm_compute. split; discriminate.
Defined.

(** X11. [sleepmode_start] blanks both strips, pushes exactly that one blank
    frame, resets the timer and sets the sleep flag; the distances, the stop
    distance, the increment and the EEPROM word are not touched. *)
Theorem sleepmode_start_effect cfg st :
  buffers_ok cfg st ->
  let st' := sleepmode_start cfg st in
  let dark := replicate (NUM_LEDS cfg) Black in
  leds_L st' = dark /\ leds_R st' = dark /\
  shown st' = (dark, dark) :: shown st /\
  LED_sleep st' = true /\ timer st' = Idle /\
  distance st' = distance st /\ previous_distance st' = previous_distance st /\
  stopdistance st' = stopdistance st /\ increment st' = increment st /\
  stopdistance_ee st' = stopdistance_ee st.
Proof.
  intros Hok st' dark.
  destruct (sleepmode_start_blanks cfg st Hok) as [HL HR].
  split; [done|]. split; [done|]. split; [|done].
  subst st'. unfold sleepmode_start in *. simpl in *. by rewrite HL, HR.
Qed.

Lemma sleepmode_start_effect_witness :
  let st := loop sketch (press 100) (setup sketch (power_on sketch 0)) in
  shown (sleepmode_start sketch st) =
  (replicate 30 Black, replicate 30 Black) :: shown st.
Proof.
  intros st.
  refine (proj1 (proj2 (proj2 (sleepmode_start_effect sketch st _)))).
  vm_compute. done.
Defined.

(** ** [setup] *)

(** The version flash: [MAJOR_VER] white LEDs, one dark LED, [MINOR_VER] red
    LEDs, the rest dark. *)
Lemma version_flash_layout cfg :
  (MAJOR_VER cfg + 1 + MINOR_VER cfg <= NUM_LEDS cfg)%nat ->
  version_colour cfg <$> seq 0 (NUM_LEDS cfg) =
  replicate (MAJOR_VER cfg) White ++ [Black] ++
  replicate (MINOR_VER cfg) Red ++
  replicate (NUM_LEDS cfg - (MAJOR_VER cfg + 1 + MINOR_VER cfg)) Black.
Proof.
  intros Hfit.
  set (M := MAJOR_VER cfg) in *. set (m := MINOR_VER cfg) in *.
  set (r := (NUM_LEDS cfg - (M + 1 + m))%nat).
  replace (NUM_LEDS cfg) with (M + (1 + (m + r)))%nat by lia.
  rewrite !seq_app, !fmap_app. simpl.
  assert (Hcol : forall i : nat,
            version_colour cfg i =
            if (i <? M)%nat then White
            else if (M <? i)%nat && (i <? M + 1 + m)%nat then Red else Black)
    by done.
  f_equal; [|f_equal; [|f_equal]].
  - apply fmap_seq_const_on. intros i Hi. rewrite Hcol.
    destruct (Nat.ltb_spec i M); [done | lia].
  - rewrite Hcol. replace (M + 0)%nat with M by lia.
    rewrite Nat.ltb_irrefl. simpl. done.
  - apply fmap_seq_const_on. intros i Hi. rewrite Hcol.
    destruct (Nat.ltb_spec i M); [lia|].
    destruct (Nat.ltb_spec M i); [|lia].
    destruct (Nat.ltb_spec i (M + 1 + m)); [done | lia].
  - apply fmap_seq_const_on. intros i Hi. rewrite Hcol.
    destruct (Nat.ltb_spec i M); [lia|].
    destruct (Nat.ltb_spec M i); [|lia].
    destruct (Nat.ltb_spec i (M + 1 + m)); [lia | done].
Qed.

(** X12. [setup] pushes exactly two frames, the same on both strips: first
    the version flash ([MAJOR_VER] white LEDs, a dark LED, [MINOR_VER] red
    LEDs, provided they fit on the strip), then all dark; it ends awake with
    dark buffers. *)
Theorem setup_version_flash cfg st :
  buffers_ok cfg st ->
  (MAJOR_VER cfg + 1 + MINOR_VER cfg <= NUM_LEDS cfg)%nat ->
  let flash := replicate (MAJOR_VER cfg) White ++ [Black] ++
               replicate (MINOR_VER cfg) Red ++
               replicate (NUM_LEDS cfg - (MAJOR_VER cfg + 1 + MINOR_VER cfg)) Black in
  let dark := replicate (NUM_LEDS cfg) Black in
  shown (setup cfg st) = (dark, dark) :: (flash, flash) :: shown st /\
  leds_L (setup cfg st) = dark /\ leds_R (setup cfg st) = dark /\
  LED_sleep (setup cfg st) = false.
Proof.
  intros Hok Hfit flash dark.
  destruct (setup_buffers_ok cfg st Hok) as [HL HR].
  destruct (setup_fields cfg st) as (_ & _ & Hs & _).
  split; [|done].
  destruct Hok as [HL0 HR0].
  set (st0 := load_calibration cfg (set_LED_sleep false st)).
  assert (H0 : length (leds_L st0) = NUM_LEDS cfg /\
               length (leds_R st0) = NUM_LEDS cfg /\ shown st0 = shown st).
  { subst st0. unfold load_calibration. case_match; done. }
  destruct H0 as (HL1 & HR1 & Hsh).
  set (st1 := for_leds (NUM_LEDS cfg) (version_colour cfg) st0).
  assert (H1 : leds_L st1 = flash /\ leds_R st1 = flash /\ shown st1 = shown st).
  { subst st1. rewrite for_leds_L, for_leds_R by done.
    rewrite version_flash_layout by done. done. }
  destruct H1 as (HL2 & HR2 & Hsh1).
  change (shown (setup cfg st)) with
    ((leds_L (setup cfg st), leds_R (setup cfg st))
       :: (leds_L st1, leds_R st1) :: shown st1).
  by rewrite HL, HR, HL2, HR2, Hsh1.
Qed.

Lemma setup_version_flash_witness :
  shown (setup sketch (power_on sketch 0)) =
  [ (replicate 30 Black, replicate 30 Black);
    (White :: Black :: replicate 10 Red ++ replicate 18 Black,
     White :: Black :: replicate 10 Red ++ replicate 18 Black) ].
Proof.
  refine (proj1 (setup_version_flash sketch (power_on sketch 0) _ _)).
  - vm_compute. done.
  - vm_compute. lia.
Defined.

(** ** The EEPROM word *)

Lemma check_tolerance_eeprom cfg inp st :
  stopdistance_ee (check_tolerance cfg inp st) = stopdistance_ee st.
Proof. unfold check_tolerance. repeat case_match; done. Qed.

Lemma control_eeprom cfg inp st :
  stopdistance_ee (control cfg inp st) =
  if button_low inp then Int16.to_uint16 (Int16.wrap (ping_cm inp))
  else stopdistance_ee st.
Proof.
  unfold control.
  set (st1 := set_distance (Int16.wrap (ping_cm inp))
                (timer_run cfg (millis_at_run inp) st)).
  unfold check_button. destruct (button_low inp); simpl.
  - destruct (check_tolerance_fields cfg inp st1) as (_ & _ & -> & _). done.
  - rewrite check_tolerance_eeprom. subst st1. simpl.
    by destruct (timer_run_fields cfg (millis_at_run inp) st) as (_ & _ & _ & ->).
Qed.

Lemma loop_eeprom cfg inp st :
  stopdistance_ee (loop cfg inp st) = stopdistance_ee (control cfg inp st).
Proof.
  unfold loop. destruct (LED_sleep (control cfg inp st)); simpl; [done|].
  unfold display. repeat case_match; done.
Qed.

Lemma uint16_round_trip z :
  Int16.of_uint16 (Int16.to_uint16 (Int16.wrap z)) = Int16.wrap z.
Proof. int16_arith. Qed.

(** X13. The EEPROM word is written only by the button: an iteration of
    [loop] without the button leaves it as it was, whichever branches run;
    an iteration with the button LOW stores the reading of that iteration
    (every iteration, as long as the button is held). *)
Theorem eeprom_written_only_by_button cfg inp st :
  (button_low inp = false ->
     stopdistance_ee (loop cfg inp st) = stopdistance_ee st) /\
  (button_low inp = true ->
     stopdistance_ee (loop cfg inp st) =
       Int16.to_uint16 (Int16.wrap (ping_cm inp)) /\
     0 <= stopdistance_ee (loop cfg inp st) < 65536).
Proof.
  rewrite loop_eeprom, control_eeprom.
  split; intros ->; [done|]. split; [done|].
  unfold Int16.to_uint16. apply Z.mod_pos_bound. lia.
Qed.

(** X14. A calibration survives a power cycle when the static stop distance
    is left at 0: after the button stored a reading, rebooting restores
    exactly the stop distance and the increment that were in use. *)
Theorem calibration_survives_reboot cfg inp st :
  stopdistance_static cfg = 0 -> button_low inp = true ->
  let st' := loop cfg inp st in
  stopdistance (reboot cfg st') = stopdistance st' /\
  increment (reboot cfg st') = increment st' /\
  stopdistance (reboot_v0_8 cfg st') = stopdistance st' /\
  increment (reboot_v0_8 cfg st') = increment st' /\
  stopdistance st' = Int16.wrap (ping_cm inp).
Proof.
  intros Hstatic Hb st'.
  assert (Hee : stopdistance_ee st' = Int16.to_uint16 (Int16.wrap (ping_cm inp))).
  { subst st'. by rewrite loop_eeprom, control_eeprom, Hb. }
  assert (Hs : stopdistance st' = Int16.wrap (ping_cm inp)).
  { subst st'. destruct (loop_calibration cfg inp st) as (-> & _).
    destruct (control_calibration cfg inp st) as [-> _]. by rewrite Hb. }
  assert (Hi : increment st' =
               Int16.div (Int16.sub (startdistance cfg) (stopdistance st'))
                         (Z.of_nat (NUM_LEDS cfg))).
  { subst st'. destruct (loop_calibration cfg inp st) as (-> & -> & _).
    destruct (control_calibration cfg inp st) as [-> ->]. by rewrite Hb. }
  assert (Hload : stopdistance (reboot_v0_8 cfg st') = stopdistance st' /\
                  increment (reboot_v0_8 cfg st') = increment st').
  { rewrite Hi. unfold reboot_v0_8, setup_v0_8, load_calibration. simpl.
    rewrite Hstatic. simpl. rewrite Hee, uint16_round_trip, Hs. done. }
  destruct Hload as [Hl1 Hl2].
  unfold reboot.
  destruct (setup_fields cfg (power_on cfg (stopdistance_ee st'))) as (-> & -> & _).
  done.
Qed.

Lemma calibration_survives_reboot_witness :
  let st := setup_v0_8 sketch_v0_6 (power_on sketch_v0_6 0) in
  stopdistance (reboot sketch_v0_6 (loop sketch_v0_6 (press 35) st)) = 35.
Proof.
  intros st.
  destruct (calibration_survives_reboot sketch_v0_6 (press 35) st eq_refl eq_refl)
    as (H & _ & _ & _ & H').
  rewrite H, H'. reflexivity.
Defined.

(** ** Stability, sleep and wake-up across iterations *)

Lemma timer_run_idle cfg now st :
  timer st = Idle -> timer_run cfg now st = st.
Proof.
  intros Ht. unfold timer_run. rewrite Ht. simpl.
  destruct st; simpl in *; by subst.
Qed.

(** The tolerance check when the sample is within the tolerance. *)
Lemma control_within_tolerance cfg inp st :
  within_tolerance cfg inp st ->
  let st0 := timer_run cfg (millis_at_run inp) st in
  let st1 := control cfg inp st in
  LED_sleep st1 = LED_sleep st0 /\
  previous_distance st1 = previous_distance st /\
  timer st1 =
    (if negb (timer_isRunning (timer st0)) && negb (LED_sleep st0)
     then timer_start (millis_at_start inp) (timer st0) else timer st0) /\
  leds_L st1 = leds_L st0 /\ leds_R st1 = leds_R st0 /\ shown st1 = shown st0.
Proof.
  intros Htol st0 st1. unfold within_tolerance in Htol. subst st1.
  unfold control. fold st0.
  set (st2 := set_distance (Int16.wrap (ping_cm inp)) st0).
  destruct (check_button_fields cfg inp (check_tolerance cfg inp st2))
    as (_ & -> & -> & -> & -> & -> & ->).
  assert (Hprev : previous_distance st0 = previous_distance st).
  { subst st0. by destruct (timer_run_fields cfg (millis_at_run inp) st)
      as (_ & _ & -> & _). }
  unfold check_tolerance.
  change (distance st2) with (Int16.wrap (ping_cm inp)).
  change (previous_distance st2) with (previous_distance st0).
  rewrite Hprev, (proj2 (Z.ltb_lt _ _) Htol).
  change (timer st2) with (timer st0). change (LED_sleep st2) with (LED_sleep st0).
  destruct (negb (timer_isRunning (timer st0)) && negb (LED_sleep st0)); done.
Qed.

(** The tolerance check when the sample is beyond the tolerance. *)
Lemma control_beyond_tolerance cfg inp st :
  ~ within_tolerance cfg inp st ->
  let st0 := timer_run cfg (millis_at_run inp) st in
  let st1 := control cfg inp st in
  LED_sleep st1 = false /\ timer st1 = Idle /\
  previous_distance st1 = Int16.wrap (ping_cm inp) /\
  leds_L st1 = leds_L st0 /\ leds_R st1 = leds_R st0 /\ shown st1 = shown st0.
Proof.
  intros Htol st0 st1. unfold within_tolerance in Htol.
  destruct (control_wakes cfg inp st ltac:(lia)) as (Hs & Ht & Hp).
  split; [done|]. split; [done|]. split; [done|].
  subst st1. unfold control. fold st0.
  set (st2 := set_distance (Int16.wrap (ping_cm inp)) st0).
  destruct (check_button_fields cfg inp (check_tolerance cfg inp st2))
    as (_ & _ & _ & _ & -> & -> & ->).
  by destruct (check_tolerance_fields cfg inp st2) as (_ & _ & _ & -> & -> & ->).
Qed.

Lemma loop_awake_frame cfg inp st :
  LED_sleep (control cfg inp st) = false ->
  shown (loop cfg inp st) =
    (leds_L (loop cfg inp st), leds_R (loop cfg inp st))
      :: shown (control cfg inp st).
Proof.
  intros Hs. unfold loop. rewrite Hs. simpl.
  f_equal. unfold display. repeat case_match; done.
Qed.

Lemma loop_asleep_unchanged cfg inp st :
  LED_sleep (control cfg inp st) = true ->
  loop cfg inp st = control cfg inp st.
Proof. intros Hs. unfold loop. by rewrite Hs. Qed.

(** X15. The first stable sample starts the countdown: awake with an idle
    timer, a sample within the tolerance starts the timer at the current
    time; the system stays awake, the stored previous distance is not moved,
    and one frame is pushed. *)
Theorem stable_sample_starts_timer cfg inp st :
  LED_sleep st = false -> timer st = Idle -> within_tolerance cfg inp st ->
  let st' := loop cfg inp st in
  timer st' = Running (millis_at_start inp) /\ LED_sleep st' = false /\
  previous_distance st' = previous_distance st /\
  shown st' = (leds_L st', leds_R st') :: shown st.
Proof.
  intros Hs Ht Htol st'.
  destruct (control_within_tolerance cfg inp st Htol)
    as (Hs1 & Hp1 & Ht1 & _ & _ & Hsh1).
  rewrite timer_run_idle in Hs1, Ht1, Hsh1 by done.
  rewrite Ht, Hs in Ht1. simpl in Ht1. rewrite Hs in Hs1.
  destruct (loop_calibration cfg inp st) as (_ & _ & _ & Hs' & Ht' & Hp').
  subst st'. rewrite Hs', Ht', Hp', Hs1, Ht1, Hp1.
  rewrite loop_awake_frame by done. by rewrite Hsh1.
Qed.

Lemma stable_sample_starts_timer_witness :
  let st := setup sketch (power_on sketch 0) in
  let inp := {| millis_at_run := 3100; ping_cm := 3;
                millis_at_start := 3150; button_low := false |} in
  timer (loop sketch inp st) = Running 3150.
Proof.
  intros st inp.
  refine (proj1 (stable_sample_starts_timer sketch inp st _ _ _)).
  - reflexivity.
  - reflexivity.
  - vm_compute. reflexivity.
Defined.

Lemma stable_step cfg inp st t0 :
  LED_sleep st = false -> timer st = Running t0 ->
  within_tolerance cfg inp st -> millis_at_run inp - t0 < LED_TIMEOUT cfg ->
  let st' := loop cfg inp st in
  timer st' = Running t0 /\ LED_sleep st' = false /\
  previous_distance st' = previous_distance st /\
  shown st' = (leds_L st', leds_R st') :: shown st.
Proof.
  intros Hs Ht Htol Hnow st'.
  destruct (control_within_tolerance cfg inp st Htol)
    as (Hs1 & Hp1 & Ht1 & _ & _ & Hsh1).
  destruct (timer_run_running cfg (millis_at_run inp) st t0 Ht) as [_ Hkeep].
  rewrite (Hkeep Hnow) in Hs1, Ht1, Hsh1.
  rewrite Ht, Hs in Ht1. simpl in Ht1. rewrite Hs in Hs1.
  destruct (loop_calibration cfg inp st) as (_ & _ & _ & Hs' & Ht' & Hp').
  subst st'. rewrite Hs', Ht', Hp', Hs1, Ht1, Hp1.
  rewrite loop_awake_frame by done. by rewrite Hsh1.
Qed.

(** X16. While the samples stay within the tolerance of the stored previous
    distance and the timeout has not elapsed, the countdown keeps its
    original start time (it is not restarted), the stored previous distance
    stays where it was (so slow drift adds up against it), the system stays
    awake, and every iteration pushes one frame. *)
Theorem stable_run_keeps_counting cfg (inps : list Inputs) st t0 :
  LED_sleep st = false -> timer st = Running t0 ->
  Forall (fun inp =>
            Int16.abs (Int16.sub (Int16.wrap (ping_cm inp)) (previous_distance st))
              < DISTANCE_TOLERANCE cfg /\
            millis_at_run inp - t0 < LED_TIMEOUT cfg) inps ->
  let st' := run_loop cfg inps st in
  timer st' = Running t0 /\ LED_sleep st' = false /\
  previous_distance st' = previous_distance st /\
  length (shown st') = (length inps + length (shown st))%nat.
Proof.
  revert st. induction inps as [|inp inps IH]; intros st Hs Ht Hall; [done|].
  inversion Hall as [|? ? [Htol Hnow] Hrest]; subst.
  destruct (stable_step cfg inp st t0 Hs Ht Htol Hnow) as (Ht1 & Hs1 & Hp1 & Hsh1).
  change (run_loop cfg (inp :: inps) st)
    with (run_loop cfg inps (loop cfg inp st)).
  destruct (IH (loop cfg inp st) Hs1 Ht1) as (Ht2 & Hs2 & Hp2 & Hsh2).
  { by rewrite Hp1. }
  simpl. rewrite Ht2, Hs2, Hp2, Hp1, Hsh2, Hsh1. simpl. repeat split; lia.
Qed.

Lemma stable_run_keeps_counting_witness :
  let st := loop sketch {| millis_at_run := 3100; ping_cm := 3;
                           millis_at_start := 3150; button_low := false |}
                 (setup sketch (power_on sketch 0)) in
  let inps := [ {| millis_at_run := 3300; ping_cm := 4;
                   millis_at_start := 3350; button_low := false |};
                {| millis_at_run := 3500; ping_cm := 1;
                   millis_at_start := 3550; button_low := false |} ] in
  timer (run_loop sketch inps st) = Running 3150.
Proof.
  intros st inps.
  refine (proj1 (stable_run_keeps_counting sketch inps st 3150 _ _ _)).
  - reflexivity.
  - reflexivity.
  - repeat constructor; vm_compute; reflexivity.
Defined.

(** X17. When the timeout has elapsed and the sample of that iteration is
    still within the tolerance, the iteration ends asleep: both strips dark,
    the dark frame is the only frame pushed, the timer is idle and the
    display code is not run. *)
Theorem timeout_enters_sleep cfg inp st t0 :
  buffers_ok cfg st -> timer st = Running t0 ->
  LED_TIMEOUT cfg <= millis_at_run inp - t0 -> within_tolerance cfg inp st ->
  let st' := loop cfg inp st in
  let dark := replicate (NUM_LEDS cfg) Black in
  LED_sleep st' = true /\ timer st' = Idle /\
  leds_L st' = dark /\ leds_R st' = dark /\
  shown st' = (dark, dark) :: shown st /\
  previous_distance st' = previous_distance st.
Proof.
  intros Hok Ht Hnow Htol st' dark.
  destruct (control_within_tolerance cfg inp st Htol)
    as (Hs1 & Hp1 & Ht1 & HL1 & HR1 & Hsh1).
  destruct (timer_run_running cfg (millis_at_run inp) st t0 Ht) as [Hfire _].
  rewrite (Hfire Hnow) in Hs1, Ht1, HL1, HR1, Hsh1.
  destruct (sleepmode_start_blanks cfg (set_timer Expired st)) as [HL HR];
    [done|].
  assert (Hsh : shown (sleepmode_start cfg (set_timer Expired st)) =
                (dark, dark) :: shown st).
  { unfold sleepmode_start in *. simpl in *. by rewrite HL, HR. }
  change (LED_sleep (sleepmode_start cfg (set_timer Expired st))) with true
    in Hs1, Ht1.
  change (timer (sleepmode_start cfg (set_timer Expired st))) with Idle in Ht1.
  simpl in Ht1.
  subst st'. rewrite (loop_asleep_unchanged cfg inp st Hs1).
  by rewrite Hs1, Ht1, HL1, HR1, Hsh1, Hp1, HL, HR, Hsh.
Qed.

Lemma timeout_enters_sleep_witness :
  let st := loop sketch {| millis_at_run := 3100; ping_cm := 3;
                           millis_at_start := 3150; button_low := false |}
                 (setup sketch (power_on sketch 0)) in
  let inp := {| millis_at_run := 63150; ping_cm := 2;
                millis_at_start := 63200; button_low := false |} in
  LED_sleep (loop sketch inp st) = true.
Proof.
  intros st inp.
  refine (proj1 (timeout_enters_sleep sketch inp st 3150 _ _ _ _)).
  - vm_compute. done.
  - reflexivity.
  - vm_compute. discriminate.
  - vm_compute. reflexivity.
Defined.

(** X18. When the timeout elapses in the very iteration in which the car
    moves beyond the tolerance, the handler still runs first: a dark frame is
    pushed, then the sleep flag is cleared again and the display frame is
    pushed; the iteration ends awake with an idle timer. *)
Theorem timeout_then_movement_same_cycle cfg inp st t0 :
  buffers_ok cfg st -> timer st = Running t0 ->
  LED_TIMEOUT cfg <= millis_at_run inp - t0 -> ~ within_tolerance cfg inp st ->
  let st' := loop cfg inp st in
  let dark := replicate (NUM_LEDS cfg) Black in
  LED_sleep st' = false /\ timer st' = Idle /\
  previous_distance st' = Int16.wrap (ping_cm inp) /\
  shown st' = (leds_L st', leds_R st') :: (dark, dark) :: shown st.
Proof.
  intros Hok Ht Hnow Htol st' dark.
  destruct (control_beyond_tolerance cfg inp st Htol)
    as (Hs1 & Ht1 & Hp1 & _ & _ & Hsh1).
  destruct (timer_run_running cfg (millis_at_run inp) st t0 Ht) as [Hfire _].
  rewrite (Hfire Hnow) in Hsh1.
  destruct (sleepmode_start_blanks cfg (set_timer Expired st)) as [HL HR];
    [done|].
  assert (Hsh : shown (sleepmode_start cfg (set_timer Expired st)) =
                (dark, dark) :: shown st).
  { unfold sleepmode_start in *. simpl in *. by rewrite HL, HR. }
  destruct (loop_calibration cfg inp st) as (_ & _ & _ & Hs' & Ht' & Hp').
  subst st'. rewrite Hs', Ht', Hp', Hs1, Ht1, Hp1.
  rewrite loop_awake_frame by done. by rewrite Hsh1, Hsh.
Qed.

Lemma timeout_then_movement_same_cycle_witness :
  let st := loop sketch {| millis_at_run := 3100; ping_cm := 3;
                           millis_at_start := 3150; button_low := false |}
                 (setup sketch (power_on sketch 0)) in
  let inp := {| millis_at_run := 63150; ping_cm := 250;
                millis_at_start := 63200; button_low := false |} in
  LED_sleep (loop sketch inp st) = false /\
  shown (loop sketch inp st) =
    (leds_L (loop sketch inp st), leds_R (loop sketch inp st))
      :: (replicate 30 Black, replicate 30 Black) :: shown st.
Proof.
  intros st inp.
  destruct (timeout_then_movement_same_cycle sketch inp st 3150)
    as (Hs & _ & _ & Hsh).
  - vm_compute. done.
  - reflexivity.
  - vm_compute. discriminate.
  - vm_compute. discriminate.
  - exact (conj Hs Hsh).
Defined.

Lemma asleep_step cfg inp st :
  LED_sleep st = true -> timer st = Idle -> within_tolerance cfg inp st ->
  let st' := loop cfg inp st in
  LED_sleep st' = true /\ timer st' = Idle /\
  previous_distance st' = previous_distance st /\
  leds_L st' = leds_L st /\ leds_R st' = leds_R st /\ shown st' = shown st.
Proof.
  intros Hs Ht Htol st'.
  destruct (control_within_tolerance cfg inp st Htol)
    as (Hs1 & Hp1 & Ht1 & HL1 & HR1 & Hsh1).
  rewrite timer_run_idle in Hs1, Ht1, HL1, HR1, Hsh1 by done.
  rewrite Ht, Hs in Ht1. simpl in Ht1. rewrite Hs in Hs1.
  subst st'. rewrite (loop_asleep_unchanged cfg inp st Hs1). done.
Qed.

(** X19. Asleep, samples within the tolerance change nothing that shows:
    over any number of iterations the system stays asleep with an idle
    timer, the buffers keep their content and no frame is pushed (the button
    may still recalibrate meanwhile). *)
Theorem asleep_run_is_silent cfg (inps : list Inputs) st :
  LED_sleep st = true -> timer st = Idle ->
  Forall (fun inp =>
            Int16.abs (Int16.sub (Int16.wrap (ping_cm inp)) (previous_distance st))
              < DISTANCE_TOLERANCE cfg) inps ->
  let st' := run_loop cfg inps st in
  LED_sleep st' = true /\ timer st' = Idle /\
  previous_distance st' = previous_distance st /\
  leds_L st' = leds_L st /\ leds_R st' = leds_R st /\ shown st' = shown st.
Proof.
  revert st. induction inps as [|inp inps IH]; intros st Hs Ht Hall; [done|].
  inversion Hall as [|? ? Htol Hrest]; subst.
  destruct (asleep_step cfg inp st Hs Ht Htol)
    as (Hs1 & Ht1 & Hp1 & HL1 & HR1 & Hsh1).
  change (run_loop cfg (inp :: inps) st)
    with (run_loop cfg inps (loop cfg inp st)).
  destruct (IH (loop cfg inp st) Hs1 Ht1) as (Hs2 & Ht2 & Hp2 & HL2 & HR2 & Hsh2).
  { by rewrite Hp1. }
  simpl. by rewrite Hs2, Ht2, Hp2, HL2, HR2, Hsh2, Hp1, HL1, HR1, Hsh1.
Qed.

Lemma asleep_run_is_silent_witness :
  let st := sleepmode_start sketch (setup sketch (power_on sketch 0)) in
  let inps := [ press 2; press 4 ] in
  shown (run_loop sketch inps st) = shown st /\
  stopdistance (run_loop sketch inps st) = 4.
Proof.
  intros st inps. split; [|reflexivity].
  refine (proj2 (proj2 (proj2 (proj2 (proj2
    (asleep_run_is_silent sketch inps st _ _ _)))))).
  - reflexivity.
  - reflexivity.
  - repeat constructor; vm_compute; reflexivity.
Defined.

(** ** What the strips show during a run *)

Lemma control_shown_head cfg inp st :
  buffers_ok cfg st ->
  (exists rest, shown st = (leds_L st, leds_R st) :: rest) ->
  exists rest,
    shown (control cfg inp st) =
    (leds_L (control cfg inp st), leds_R (control cfg inp st)) :: rest.
Proof.
  intros Hok [rest Hrest]. unfold control.
  set (st0 := timer_run cfg (millis_at_run inp) st).
  set (st1 := set_distance (Int16.wrap (ping_cm inp)) st0).
  destruct (check_button_fields cfg inp (check_tolerance cfg inp st1))
    as (_ & _ & _ & _ & -> & -> & ->).
  destruct (check_tolerance_fields cfg inp st1) as (_ & _ & _ & -> & -> & ->).
  subst st1 st0. simpl. unfold timer_run.
  destruct (timer_tick _ _ _) as [t [|]]; [|by exists rest].
  exists (shown st). unfold sleepmode_start. simpl. done.
Qed.

Lemma control_asleep_dark cfg inp st :
  buffers_ok cfg st ->
  (LED_sleep st = true -> leds_L st = replicate (NUM_LEDS cfg) Black /\
                          leds_R st = replicate (NUM_LEDS cfg) Black) ->
  LED_sleep (control cfg inp st) = true ->
  leds_L (control cfg inp st) = replicate (NUM_LEDS cfg) Black /\
  leds_R (control cfg inp st) = replicate (NUM_LEDS cfg) Black.
Proof.
  intros Hok Hdark. unfold control.
  set (st0 := timer_run cfg (millis_at_run inp) st).
  set (st1 := set_distance (Int16.wrap (ping_cm inp)) st0).
  destruct (check_button_fields cfg inp (check_tolerance cfg inp st1))
    as (_ & -> & _ & _ & -> & -> & _).
  destruct (check_tolerance_fields cfg inp st1) as (_ & _ & _ & -> & -> & _).
  intros Hs.
  assert (Hs0 : LED_sleep st0 = true).
  { unfold check_tolerance in Hs. repeat case_match; done. }
  change (leds_L st1) with (leds_L st0). change (leds_R st1) with (leds_R st0).
  subst st0. unfold timer_run in *.
  destruct (timer_tick _ _ _) as [t [|]].
  - by apply sleepmode_start_blanks.
  - simpl in *. by apply Hdark.
Qed.

(** X20. Throughout a run the strips show what the buffers hold: in every
    state after [setup] the newest pushed frame is the current content of the
    two buffers (no buffer update is left unpushed), and whenever the system
    is asleep both buffers are dark. *)
Theorem run_strips_show_buffers cfg st :
  reachable cfg st ->
  (exists rest, shown st = (leds_L st, leds_R st) :: rest) /\
  (LED_sleep st = true ->
     leds_L st = replicate (NUM_LEDS cfg) Black /\
     leds_R st = replicate (NUM_LEDS cfg) Black).
Proof.
  induction 1 as [ee | inp st Hreach [Hhead Hdark]].
  - split; [by eexists|].
    destruct (setup_fields cfg (power_on cfg ee)) as (_ & _ & -> & _). done.
  - destruct (reachable_invariants cfg st Hreach) as [Hok _].
    destruct (LED_sleep (control cfg inp st)) eqn:Hs.
    + rewrite (loop_asleep_unchanged cfg inp st Hs). split.
      * by apply control_shown_head.
      * intros _. by apply control_asleep_dark.
    + split.
      * rewrite loop_awake_frame by done. by eexists.
      * destruct (loop_calibration cfg inp st) as (_ & _ & _ & -> & _).
        rewrite Hs. done.
Qed.

Lemma run_strips_show_buffers_witness :
  let st := loop sketch (press 100) (setup sketch (power_on sketch 0)) in
  exists rest, shown st = (leds_L st, leds_R st) :: rest.
Proof.
  intros st.
  refine (proj1 (run_strips_show_buffers sketch st _)).
  apply reach_loop, reach_setup.
Defined.

(** X21. Pressing the button makes the current position the stop position at
    once: in an iteration that ends awake with the button LOW and a reading
    not beyond [startdistance], the stop distance is the reading and both
    strips are entirely red in that same iteration (dark for a reading of
    0). *)
Theorem button_press_shows_stop cfg inp st :
  buffers_ok cfg st -> button_low inp = true ->
  LED_sleep (loop cfg inp st) = false ->
  Int16.wrap (ping_cm inp) <= startdistance cfg ->
  let st' := loop cfg inp st in
  let c := if Int16.wrap (ping_cm inp) =? 0 then Black else Red in
  stopdistance st' = distance st' /\
  leds_L st' = replicate (NUM_LEDS cfg) c /\
  leds_R st' = replicate (NUM_LEDS cfg) c.
Proof.
  intros Hok Hb Hawake Hstart st' c.
  destruct (loop_calibration cfg inp st) as (Hs & _ & Hd & Hsl & _).
  rewrite Hsl in Hawake.
  destruct (control_calibration cfg inp st) as [Hs1 _]. rewrite Hb in Hs1.
  pose proof (control_distance cfg inp st) as Hd1.
  subst st'. rewrite Hs, Hd, Hs1, Hd1. split; [done|].
  unfold loop. rewrite Hawake. simpl.
  destruct (display_stop_zone cfg (control cfg inp st)) as [HL HR].
  - by apply control_buffers_ok.
  - by rewrite Hd1.
  - rewrite Hd1, Hs1. lia.
  - rewrite Hd1 in HL, HR. done.
Qed.

Lemma button_press_shows_stop_witness :
  leds_L (loop sketch (press 120) (setup sketch (power_on sketch 0))) =
  replicate 30 Red.
Proof.
  refine (proj1 (proj2 (button_press_shows_stop sketch (press 120)
                          (setup sketch (power_on sketch 0)) _ _ _ _))).
  - vm_compute. done.
  - reflexivity.
  - vm_compute. reflexivity.
  - vm_compute. discriminate.
Defined.
